(** * Formula reference remapping of excel_splitter

    A shallow embedding of [FormulaHelper] (src/excel_splitter_V2.py and
    src/excel_splitter_v1.1.0.py, whose [FormulaHelper] classes are
    identical) and the properties of its row mapper and formula rewriter. *)

From Stdlib Require Import ZArith Decimal DecimalFacts DecimalN.
From stdpp Require Import base numbers list sorting gmap strings.

Local Open Scope Z_scope.

(** ** Row mapper *)

(** [sorted(original_map.keys())]: the keys of the dict in ascending order. *)
Definition sorted_keys {V} (original_map : gmap Z V) : list Z :=
  merge_sort Z.le (elements (dom original_map)).

(** One iteration of the loop of [build_row_mapping_after_deletion]; the
    state is the pair of the dict [mapping] and the counter [offset].  The
    tombstone [None] of the source is the inner [None]. *)
Definition mapping_step (deleted_rows : list Z)
    (st : gmap Z (option Z) * Z) (orig_row : Z) : gmap Z (option Z) * Z :=
  let '(mapping, offset) := st in
  if bool_decide (orig_row ∈ deleted_rows)
  then (<[orig_row := None]> mapping, offset + 1)
  else (<[orig_row := Some (orig_row - offset)]> mapping, offset).

Definition build_row_mapping_after_deletion {V}
    (original_map : gmap Z V) (deleted_rows : list Z) : gmap Z (option Z) :=
  fst (foldl (mapping_step deleted_rows) (∅, 0) (sorted_keys original_map)).

(** The number of rows of the input row set that are marked for deletion and
    lie strictly below [r]. *)
Definition deleted_below {V} (original_map : gmap Z V) (deleted_rows : list Z)
    (r : Z) : nat :=
  size (filter (λ k, k ∈ deleted_rows ∧ k < r) (dom original_map)).

(** A dict whose keys are the rows [1..n], as [create_row_mapping] builds it
    for a worksheet of [n] rows (the row contents play no role here). *)
Definition rows_upto (n : Z) : gmap Z unit :=
  list_to_map ((λ r, (r, ())) <$> seqZ 1 n).

(** ** Python values used by the rewriter *)

(** A Python [str] is a sequence of Unicode code points. *)
Abbreviation char := N (only parsing).
Abbreviation str := (list N) (only parsing).

(** The [str] with the given ASCII text. *)
Definition py (text : string) : str :=
  Ascii.N_of_ascii <$> String.list_ascii_of_string text.

(** The exceptions that the statements of [FormulaHelper] can raise. *)
Inductive exn := ValueError | KeyError.

Inductive outcome (A : Type) :=
| Returns (a : A)
| Raises (e : exn).
Arguments Returns {A} a.
Arguments Raises {A} e.

Global Instance outcome_bind : MBind outcome := λ A B f x,
  match x with
  | Returns a => f a
  | Raises e => Raises e
  end.

(** A [for] loop whose body can raise. *)
Fixpoint for_each {S X} (body : S → X → outcome S) (s : S) (l : list X)
    : outcome S :=
  match l with
  | [] => Returns s
  | x :: l' => s' ← body s x; for_each body s' l'
  end.

(** [s.startswith(prefix)]. *)
Fixpoint startswith (s prefix : str) {struct prefix} : bool :=
  match prefix, s with
  | [], _ => true
  | _ :: _, [] => false
  | p :: prefix', c :: s' => (c =? p)%N && startswith s' prefix'
  end.

(** [s.replace(old, new)] for a non-empty [old]: the occurrences are found
    from the left and do not overlap; [skip] counts the characters of an
    occurrence that are still to be passed over. *)
Fixpoint replace_from (old new : str) (skip : nat) (s : str) : str :=
  match s with
  | [] => []
  | c :: s' =>
    match skip with
    | S n => replace_from old new n s'
    | O =>
      if startswith s old
      then new ++ replace_from old new (length old - 1) s'
      else c :: replace_from old new 0 s'
    end
  end.

(** [s.replace(old, new)]; an empty [old] matches before every character
    and at the end. *)
Definition replace (s old new : str) : str :=
  match old with
  | [] => new ++ concat ((λ c, c :: new) <$> s)
  | _ :: _ => replace_from old new 0 s
  end.

(** The constructor of [Decimal.uint] for an ASCII digit. *)
Definition digit_cons (c : char) : option (uint → uint) :=
  match c with
  | 48 => Some D0 | 49 => Some D1 | 50 => Some D2 | 51 => Some D3
  | 52 => Some D4 | 53 => Some D5 | 54 => Some D6 | 55 => Some D7
  | 56 => Some D8 | 57 => Some D9
  | _ => None
  end%N.

Fixpoint uint_of_digits (s : str) : option uint :=
  match s with
  | [] => Some Nil
  | c :: s' =>
    match digit_cons c, uint_of_digits s' with
    | Some d, Some u => Some (d u)
    | _, _ => None
    end
  end.

(** The number of digits beyond which [int] does not read a text and [str]
    does not write a number: [sys.int_info.default_max_str_digits], the
    limit of the interpreter, which the program leaves as it is. *)
Definition max_str_digits : Z := 4300.

(** [int(s)] on a non-empty run of ASCII digits.  On any other text the
    model raises [ValueError]; Python accepts more there (a sign, blanks
    around the number, underscores, other Unicode digits), none of which the
    rewriter ever passes.  A run of more than [max_str_digits] digits, its
    leading zeros counted, raises [ValueError] as well. *)
Definition int (s : str) : outcome Z :=
  match s with
  | [] => Raises ValueError
  | _ :: _ =>
    match uint_of_digits s with
    | Some u =>
      if Z.of_nat (length s) <=? max_str_digits
      then Returns (Z.of_N (N.of_uint u))
      else Raises ValueError
    | None => Raises ValueError
    end
  end.

Fixpoint digits_of_uint (u : uint) : str :=
  match u with
  | Nil => []
  | D0 u => 48%N :: digits_of_uint u | D1 u => 49%N :: digits_of_uint u
  | D2 u => 50%N :: digits_of_uint u | D3 u => 51%N :: digits_of_uint u
  | D4 u => 52%N :: digits_of_uint u | D5 u => 53%N :: digits_of_uint u
  | D6 u => 54%N :: digits_of_uint u | D7 u => 55%N :: digits_of_uint u
  | D8 u => 56%N :: digits_of_uint u | D9 u => 57%N :: digits_of_uint u
  end.

(** The decimal text of an [int]. *)
Definition str_of_int (n : Z) : str :=
  if n <? 0 then 45%N :: digits_of_uint (N.to_uint (Z.abs_N n))
  else digits_of_uint (N.to_uint (Z.abs_N n)).

(** The number of decimal digits of an [int], its sign not counted. *)
Definition decimal_digits (n : Z) : nat := nb_digits (N.to_uint (Z.abs_N n)).

(** [str(n)] and [f'{n}'] for an [int]: the decimal text, and [ValueError]
    for a number of more than [max_str_digits] digits. *)
Definition str_int (n : Z) : outcome str :=
  if Z.of_nat (decimal_digits n) <=? max_str_digits
  then Returns (str_of_int n)
  else Raises ValueError.

(** [d[k]] on a dict. *)
Definition getitem {V} (d : gmap Z V) (k : Z) : outcome V :=
  match d !! k with
  | Some v => Returns v
  | None => Raises KeyError
  end.

(** ** Regular expressions, as [re] runs them *)

(** The constructs that the two patterns of [FormulaHelper] use.  [Plus] is
    applied to character sets only, as it is in both patterns. *)
Inductive regex :=
| Class (p : char → bool)     (* one character of a set; a literal *)
| Cat (r1 r2 : regex)         (* r1 r2 *)
| Opt (r : regex)             (* r?   (greedy) *)
| Plus (p : char → bool)      (* [set]+   (greedy) *)
| Group (i : nat) (r : regex). (* the capturing group number i *)

(** The text of the groups that took part in a match, latest first. *)
Abbreviation captures := (list (nat * list N)) (only parsing).

Fixpoint group (i : nat) (c : captures) : option str :=
  match c with
  | [] => None
  | (j, text) :: c' => if (j =? i)%nat then Some text else group i c'
  end.

(** [[set]+] followed by the rest [k] of the pattern: the longest run is
    tried first and given back one character at a time. *)
Fixpoint plus_match {A} (p : char → bool) (s : str) (k : str → option A)
    : option A :=
  match s with
  | [] => None
  | c :: s' =>
    if p c then
      match plus_match p s' k with
      | Some a => Some a
      | None => k s'
      end
    else None
  end.

(** The backtracking matcher: [rmatch r s c k] matches [r] at the front of
    [s] and hands the rest of the input and the groups to the rest [k] of the
    pattern; where [k] fails, the next alternative of [r] is tried, in the
    order in which [re] tries them. *)
Fixpoint rmatch {A} (r : regex) (s : str) (c : captures)
    (k : str → captures → option A) : option A :=
  match r with
  | Class p =>
    match s with
    | x :: s' => if p x then k s' c else None
    | [] => None
    end
  | Cat r1 r2 => rmatch r1 s c (λ s' c', rmatch r2 s' c' k)
  | Opt r1 =>
    match rmatch r1 s c k with
    | Some a => Some a
    | None => k s c
    end
  | Plus p => plus_match p s (λ s', k s' c)
  | Group i r1 =>
    rmatch r1 s c (λ s' c', k s' ((i, take (length s - length s') s) :: c'))
  end.

(** [re.match(r, s)]: the rest of the input after the match and the groups. *)
Definition re_match (r : regex) (s : str) : option (str * list (nat * str)) :=
  rmatch r s [] (λ s' c, Some (s', c)).

(** The text of group [i] as [findall] and [groups()] report it. *)
Definition group_text (i : nat) (c : captures) : str := default [] (group i c).

(** [re.findall(r, s)] for a pattern with one group: the matches are looked
    for from the left, each search starting where the previous match ended;
    [skip] counts the characters of the previous match still to be passed
    over.  (Neither pattern of the program matches the empty string.) *)
Fixpoint findall_from (r : regex) (skip : nat) (s : str) : list str :=
  match s with
  | [] => []
  | _ :: s' =>
    match skip with
    | S n => findall_from r n s'
    | O =>
      match re_match r s with
      | Some (rest, c) =>
        group_text 1 c :: findall_from r (length s - length rest - 1) s'
      | None => findall_from r 0 s'
      end
    end
  end.

Definition findall (r : regex) (s : str) : list str := findall_from r 0 s.

(** Character sets. *)
Definition is_char (x : char) : char → bool := λ c, (c =? x)%N.
Definition in_range (lo hi : char) : char → bool :=
  λ c, ((lo <=? c) && (c <=? hi))%N.
Definition either (p q : char → bool) : char → bool := λ c, p c || q c.

Definition dollar : char := 36%N.
Definition bang : char := 33%N.
Definition upper : char → bool := in_range 65 90.    (* [A-Z] *)
Definition digit : char → bool := in_range 48 57.    (* [0-9] *)
(** The set of the two quote characters, single (39) and double (34). *)
Definition quote : char → bool := either (is_char 39) (is_char 34).

(** What [\w] and [\s] match beyond ASCII is decided by the Unicode tables
    of the Python runtime. *)
Class UnicodeTables := {
  unicode_word : char → bool;
  unicode_space : char → bool
}.

(** Tables in which no character beyond ASCII is a word or space character. *)
Definition ascii_only : UnicodeTables :=
  {| unicode_word := λ _, false; unicode_space := λ _, false |}.

(** ** The formula rewriter *)

(** The value of a worksheet cell: [None], a [str], or something else. *)
Inductive value :=
| VNone
| VStr (s : str)
| VBool (b : bool)
| VInt (n : Z)
| VObject (id : nat).

Global Instance value_eq_dec : EqDecision value.
Proof. solve_decision. Defined.

Record cell := Cell { data_type : str; cell_value : value }.

Section formula_helper.
Context {tables : UnicodeTables}.

(** [\w] and [\s] of a [str] pattern. *)
Definition word : char → bool := λ c,
  if (c <? 128)%N
  then upper c || in_range 97 122 c || digit c || is_char 95 c
  else unicode_word c.
Definition space : char → bool := λ c,
  if (c <? 128)%N
  then in_range 9 13 c || in_range 28 31 c || is_char 32 c
  else unicode_space c.

(** [\$?[A-Z]+\$?[0-9]+] *)
Definition cell_pattern : regex :=
  Cat (Opt (Class (is_char dollar)))
    (Cat (Plus upper) (Cat (Opt (Class (is_char dollar))) (Plus digit))).

(** [(?:Q?[\w\s]+Q?)?!], with Q the set [quote]. *)
Definition sheet_pattern : regex :=
  Cat (Opt (Cat (Opt (Class quote))
              (Cat (Plus (either word space)) (Opt (Class quote)))))
    (Class (is_char bang)).

(** [(?:(?:Q?[\w\s]+Q?)?!)?(\$?[A-Z]+\$?[0-9]+)], the pattern of
    [parse_cell_references]. *)
Definition reference_pattern : regex :=
  Cat (Opt sheet_pattern) (Group 1 cell_pattern).

(** [(\$?[A-Z]+)(\$?[0-9]+)], the pattern of [adjust_formula_references]. *)
Definition parts_pattern : regex :=
  Cat (Group 1 (Cat (Opt (Class (is_char dollar))) (Plus upper)))
    (Group 2 (Cat (Opt (Class (is_char dollar))) (Plus digit))).

Definition parse_cell_references (formula : str) : list str :=
  match formula with
  | [] => []
  | _ :: _ => findall reference_pattern formula
  end.

(** [cell_refs.sort(key=len, reverse=True)]: the sort is stable, so a
    reference goes in front of the first one that is not longer. *)
Fixpoint insert_by_len (ref : str) (sorted : list str) : list str :=
  match sorted with
  | [] => [ref]
  | r :: sorted' =>
    if (length r <=? length ref)%nat then ref :: r :: sorted'
    else r :: insert_by_len ref sorted'
  end.

Definition sort_by_len_desc (cell_refs : list str) : list str :=
  foldr insert_by_len [] cell_refs.

(** The body of the loop over [cell_refs]. *)
Definition adjust_reference (row_mapping : gmap Z (option Z))
    (new_formula ref : str) : outcome str :=
  match re_match parts_pattern ref with
  | None => Returns new_formula
  | Some (_, groups) =>
    let col_ref := group_text 1 groups in
    let row_ref := group_text 2 groups in
    '(row_num, is_absolute) ←
      (if startswith row_ref [dollar]
       then n ← int (drop 1 row_ref); Returns (n, true)
       else n ← int row_ref; Returns (n, false));
    if bool_decide (row_num ∈ dom row_mapping) then
      new_row_num ← getitem row_mapping row_num;
      match new_row_num with
      | None => Returns new_formula
      | Some new_row_num =>
        new_row_text ← str_int new_row_num;
        let new_row_ref :=
          if is_absolute : bool then dollar :: new_row_text
          else new_row_text in
        let new_ref := col_ref ++ new_row_ref in
        Returns (replace new_formula ref new_ref)
      end
    else Returns new_formula
  end.

Definition adjust_formula_references (formula : str)
    (row_mapping : gmap Z (option Z)) : outcome str :=
  match formula with
  | [] => Returns formula
  | _ :: _ =>
    if negb (startswith formula (py "=")) then Returns formula
    else
      let cell_refs := parse_cell_references formula in
      let cell_refs := sort_by_len_desc cell_refs in
      for_each (adjust_reference row_mapping) formula cell_refs
  end.

(** The body of the loops of [update_formulas_in_sheet] at one cell; the
    state is the cell and the counter [updated_count].  The assignment
    [cell.value = new_formula] is the attribute update that the source
    shows.  The cells are objects of the worksheet: what has been assigned
    stays assigned when a later statement raises, so the result is the cell
    after the body together with the count or the exception. *)
Definition update_cell (row_mapping : gmap Z (option Z))
    (updated_count : Z) (c : cell) : cell * outcome Z :=
  if bool_decide (data_type c = py "f") then
    match cell_value c with
    | VStr ((_ :: _) as original_formula) =>
      match adjust_formula_references original_formula row_mapping with
      | Returns new_formula =>
        if bool_decide (new_formula ≠ original_formula)
        then (Cell (data_type c) (VStr new_formula),
              Returns (updated_count + 1))
        else (c, Returns updated_count)
      | Raises e => (c, Raises e)
      end
    | _ => (c, Returns updated_count)
    end
  else (c, Returns updated_count).

(** The inner loop: an exception leaves it, and the cells that follow are
    not visited. *)
Fixpoint update_row (row_mapping : gmap Z (option Z)) (updated_count : Z)
    (row : list cell) : list cell * outcome Z :=
  match row with
  | [] => ([], Returns updated_count)
  | c :: row' =>
    match update_cell row_mapping updated_count c with
    | (c', Returns n) =>
      let '(row'', result) := update_row row_mapping n row' in
      (c' :: row'', result)
    | (c', Raises e) => (c' :: row', Raises e)
    end
  end.

Fixpoint update_rows (row_mapping : gmap Z (option Z)) (updated_count : Z)
    (rows : list (list cell)) : list (list cell) * outcome Z :=
  match rows with
  | [] => ([], Returns updated_count)
  | row :: rows' =>
    match update_row row_mapping updated_count row with
    | (row', Returns n) =>
      let '(rows'', result) := update_rows row_mapping n rows' in
      (row' :: rows'', result)
    | (row', Raises e) => (row' :: rows', Raises e)
    end
  end.

(** The worksheet is the list of its rows, as [iter_rows()] yields them;
    the result is the worksheet after the call and the returned count, or
    the exception that ended the call. *)
Definition update_formulas_in_sheet (worksheet : list (list cell))
    (row_mapping : gmap Z (option Z)) : list (list cell) * outcome Z :=
  update_rows row_mapping 0 worksheet.
End formula_helper.

(** ** The rest of [FormulaHelper] and the batch caller *)

Section worksheet_rows.
(** [str(v)] of a cell value other than [None], a [str], a [bool] or an [int]
    (a float, a date) is decided by the Python runtime. *)
Context (object_text : nat → str).

(** [str(v)].  An [int] in a cell has been read from the workbook by
    [int]: it is a number whose text [str] writes. *)
Definition str_of_value (v : value) : str :=
  match v with
  | VNone => py "None"
  | VStr s => s
  | VBool true => py "True"
  | VBool false => py "False"
  | VInt n => str_of_int n
  | VObject id => object_text id
  end.

(** [str(cell.value) if cell.value is not None else ''] (two quotes: the
    empty text). *)
Definition cell_text (c : cell) : str :=
  match cell_value c with
  | VNone => []
  | v => str_of_value v
  end.

(** [create_row_mapping]; the state of the loop is the dict
    [row_content_map] and the counter [row_idx] of [enumerate(..., 1)]. *)
Definition create_row_mapping (worksheet : list (list cell))
    : gmap Z (list str) :=
  fst (foldl (λ '(row_content_map, row_idx) row,
                (<[row_idx := cell_text <$> row]> row_content_map, row_idx + 1))
         (∅, 1) worksheet).

(** The loop of [batch_process_with_openpyxl] that collects the rows whose
    cell in column [col_index] is not one of [filter_values]; [rows] are the
    rows that [iter_rows(min_row=2)] still has to yield and [row_idx] is the
    counter of [enumerate(..., start=2)].  [row[col_index]] raises
    [IndexError] on a row that is too short: the model then has no result. *)
Fixpoint collect_rows_to_delete (col_index : nat) (filter_values : list str)
    (row_idx : Z) (rows : list (list cell)) (rows_to_delete : list Z)
    : option (list Z) :=
  match rows with
  | [] => Some rows_to_delete
  | row :: rows' =>
    c ← row !! col_index;
    let cell_value := cell_text c in
    collect_rows_to_delete col_index filter_values (row_idx + 1) rows'
      (if bool_decide (cell_value ∉ filter_values)
       then rows_to_delete ++ [row_idx] else rows_to_delete)
  end.

(** [l.remove(x)] where [x in l] has been tested: the first [x] goes. *)
Fixpoint remove_first (x : Z) (l : list Z) : list Z :=
  match l with
  | [] => []
  | y :: l' => if bool_decide (y = x) then l' else y :: remove_first x l'
  end.

(** The rows to delete from a worksheet, with the rule of the caller that
    keeps row 2 when every data row would go.  The worksheet is the list of
    its rows [1..max_row]. *)
Definition rows_to_delete (worksheet : list (list cell)) (col_index : nat)
    (filter_values : list str) : option (list Z) :=
  rows_to_delete ← collect_rows_to_delete col_index filter_values 2
                     (drop 1 worksheet) [];
  let max_row := Z.of_nat (length worksheet) in
  if bool_decide (max_row - 1 ≤ Z.of_nat (length rows_to_delete)) then
    if bool_decide (2 ∈ rows_to_delete)
    then Some (remove_first 2 rows_to_delete)
    else Some rows_to_delete
  else Some rows_to_delete.
End worksheet_rows.

(** [ws.delete_rows(idx, 1)] of openpyxl on a worksheet that holds a cell at
    every position (as it does once [create_row_mapping] has visited every
    cell): row [idx] goes and the rows below move up; a row number beyond the
    last row changes nothing.  Rows are numbered from 1. *)
Definition delete_rows (worksheet : list (list cell)) (idx : Z)
    : list (list cell) :=
  if bool_decide (1 ≤ idx) then delete (Z.to_nat (idx - 1)) worksheet
  else worksheet.

(** [for row_idx in sorted(rows_to_delete, reverse=True):
    ws.delete_rows(row_idx, 1)]. *)
Definition delete_rows_descending (worksheet : list (list cell))
    (rows_to_delete : list Z) : list (list cell) :=
  foldl delete_rows worksheet (merge_sort (flip Z.le) rows_to_delete).

(** *** [ConditionGroup] *)

Record condition (V : Type) := Condition {
  cond_sheet : str;
  cond_column : str;
  cond_values : list V
}.
Arguments Condition {V} _ _ _.
Arguments cond_sheet {V} _.
Arguments cond_column {V} _.
Arguments cond_values {V} _.

Record ConditionGroup (V : Type) := Group_ {
  group_name : str;
  conditions : list (condition V)
}.
Arguments Group_ {V} _ _.
Arguments group_name {V} _.
Arguments conditions {V} _.

Definition add_condition {V} (self : ConditionGroup V) (sheet column : str)
    (vals : list V) : ConditionGroup V :=
  Group_ (group_name self) (conditions self ++ [Condition sheet column vals]).

Definition remove_condition {V} (self : ConditionGroup V) (index : Z)
    : ConditionGroup V :=
  if bool_decide (0 ≤ index < Z.of_nat (length (conditions self)))
  then Group_ (group_name self) (delete (Z.to_nat index) (conditions self))
  else self.

Definition clear_conditions {V} (self : ConditionGroup V) : ConditionGroup V :=
  Group_ (group_name self) [].

(** *** The file name of a split value *)

(** The characters that [split_with_pandas] and [split_with_openpyxl]
    replace: slash, backslash, colon, star, question mark, double quote,
    less-than, greater-than and bar. *)
Definition unsafe_chars : list N := [47; 92; 58; 42; 63; 34; 60; 62; 124]%N.

(** [safe_value], from the text [str(value)]. *)
Definition safe_value (value_text : str) : str :=
  let safe_value :=
    foldl (λ safe_value char, replace safe_value [char] (py "_"))
      value_text unsafe_chars in
  if bool_decide (20 < length safe_value)%nat then take 20 safe_value
  else safe_value.

(** *** The pass over the references to other sheets *)

Definition squote : char → bool := is_char 39.
Definition not_bang : char → bool := λ c, negb (is_char bang c).

(** [(Q?[^!]+Q?)!(\$?[A-Z]+\$?[0-9]+)], with Q the single quote: the pattern
    of the pass of [batch_process_with_openpyxl] over the references to other
    sheets. *)
Definition sheet_reference_pattern : regex :=
  Cat (Group 1 (Cat (Opt (Class squote))
                  (Cat (Plus not_bang) (Opt (Class squote)))))
    (Cat (Class (is_char bang)) (Group 2 cell_pattern)).

(** [re.findall(r, s)] for a pattern with two groups: the pairs of their
    texts. *)
Fixpoint findall2_from (r : regex) (skip : nat) (s : str) : list (str * str) :=
  match s with
  | [] => []
  | _ :: s' =>
    match skip with
    | S n => findall2_from r n s'
    | O =>
      match re_match r s with
      | Some (rest, c) =>
        (group_text 1 c, group_text 2 c)
          :: findall2_from r (length s - length rest - 1) s'
      | None => findall2_from r 0 s'
      end
    end
  end.

(** [s.lstrip(Q)] and [s.strip(Q)] for the single quote Q. *)
Fixpoint lstrip_quotes (s : str) : str :=
  match s with
  | c :: s' => if squote c then lstrip_quotes s' else s
  | [] => []
  end.

Definition strip_quotes (s : str) : str :=
  reverse (lstrip_quotes (reverse (lstrip_quotes s))).

(** The body of the loop over [sheet_refs]. *)
Definition adjust_sheet_reference
    (sheet_row_mappings : gmap (list N) (gmap Z (option Z)))
    (new_formula : str) (sheet_ref : str * str) : outcome str :=
  let '(ref_sheet, cell_ref) := sheet_ref in
  let clean_sheet_name := strip_quotes ref_sheet in
  if bool_decide (clean_sheet_name ∈ dom sheet_row_mappings) then
    match re_match parts_pattern cell_ref with
    | None => Returns new_formula
    | Some (_, groups) =>
      let col_ref := group_text 1 groups in
      let row_ref := group_text 2 groups in
      '(row_num, is_absolute) ←
        (if startswith row_ref [dollar]
         then n ← int (drop 1 row_ref); Returns (n, true)
         else n ← int row_ref; Returns (n, false));
      match sheet_row_mappings !! clean_sheet_name with
      | None => Raises KeyError
      | Some mapping =>
        if bool_decide (row_num ∈ dom mapping) then
          new_row_num ← getitem mapping row_num;
          match new_row_num with
          | None => Returns new_formula
          | Some new_row_num =>
            new_row_text ← str_int new_row_num;
            let new_row_ref :=
              if is_absolute : bool then dollar :: new_row_text
              else new_row_text in
            let new_cell_ref := col_ref ++ new_row_ref in
            let original_ref := ref_sheet ++ bang :: cell_ref in
            let replacement := ref_sheet ++ bang :: new_cell_ref in
            Returns (replace new_formula original_ref replacement)
          end
        else Returns new_formula
      end
    end
  else Returns new_formula.

(** What the pass computes for the formula of one cell. *)
Definition adjust_sheet_references (formula : str)
    (sheet_row_mappings : gmap (list N) (gmap Z (option Z))) : outcome str :=
  let sheet_refs := findall2_from sheet_reference_pattern 0 formula in
  for_each (adjust_sheet_reference sheet_row_mappings) formula sheet_refs.

(** ** Predicates used in the statements *)

(** A text of the form [\$?[set]+]: an optional dollar sign, then the run. *)
Definition marked_run (p : char → bool) (mark run : str) : Prop :=
  (mark = [] ∨ mark = [dollar]) ∧ run ≠ [] ∧ Forall (λ c, p c = true) run.

(** The two parts of the text of a cell reference: the column letters and
    the row digits, each behind an optional dollar sign. *)
Definition reference_parts (col_ref row_ref : str) : Prop :=
  ∃ cmark letters rmark digits,
    col_ref = cmark ++ letters ∧ row_ref = rmark ++ digits ∧
    marked_run upper cmark letters ∧ marked_run digit rmark digits.

(** A pattern without groups leaves the groups as they are. *)
Fixpoint no_group (r : regex) : bool :=
  match r with
  | Class _ | Plus _ => true
  | Cat r1 r2 => no_group r1 && no_group r2
  | Opt r1 => no_group r1
  | Group _ _ => false
  end.

(** Counting the rows [rows] from [first], row [d] has a cell in column
    [col_index] whose text is not one of [filter_values]. *)
Definition filtered_out (object_text : nat → str) (rows : list (list cell))
    (col_index : nat) (filter_values : list str) (first : Z) (d : Z) : Prop :=
  ∃ j row c, rows !! j = Some row ∧ d = first + Z.of_nat j ∧
             row !! col_index = Some c ∧
             cell_text object_text c ∉ filter_values.

(** The digits of the row number of a reference, as the loop body reads
    them. *)
Definition row_digits (ref : str) : option str :=
  match re_match parts_pattern ref with
  | Some (_, groups) =>
    let row_ref := group_text 2 groups in
    Some (if startswith row_ref [dollar] then drop 1 row_ref else row_ref)
  | None => None
  end.

(** A row number written the way [str] writes it: without a leading zero. *)
Definition no_leading_zero (digits : str) : bool :=
  match digits with
  | 48%N :: _ :: _ => false
  | _ => true
  end.

Definition plain_row (ref : str) : bool :=
  match row_digits ref with
  | Some digits => no_leading_zero digits
  | None => true
  end.

(** The row number of a reference, as the loop body reads it. *)
Definition row_number (ref : str) : option Z :=
  match row_digits ref with
  | Some digits =>
    match int digits with
    | Returns n => Some n
    | Raises _ => None
    end
  | None => None
  end.

(** The loop body reads the row number of [ref] and, where the mapping has
    a new row number for it, writes that number, and neither [int] nor [str]
    meets the limit on the number of digits. *)
Definition within_limits (row_mapping : gmap Z (option Z)) (ref : str)
    : Prop :=
  ∃ n, row_number ref = Some n ∧
       ∀ v, row_mapping !! n = Some (Some v) →
            Z.of_nat (decimal_digits v) ≤ max_str_digits.

(** The same for a reference to another sheet, in the mapping of the sheet
    that it names, when there is one. *)
Definition sheet_reference_within_limits
    (sheet_row_mappings : gmap (list N) (gmap Z (option Z)))
    (sheet_ref : str * str) : Prop :=
  ∀ mapping,
    sheet_row_mappings !! strip_quotes sheet_ref.1 = Some mapping →
    within_limits mapping sheet_ref.2.

(** [old in s]. *)
Fixpoint contains (s old : str) : bool :=
  startswith s old ||
  match s with
  | [] => false
  | _ :: s' => contains s' old
  end.

(** The text that starts with [first] and goes on with [ref] in front of
    every piece of [pieces]. *)
Definition occurrences (ref first : str) (pieces : list str) : str :=
  first ++ concat ((λ piece, ref ++ piece) <$> pieces).

(** No occurrence of [ref] starts within [piece], also when [ref] stands
    behind it. *)
Definition starts_no_occurrence (ref piece : str) : Prop :=
  contains (piece ++ take (length ref - 1) ref) ref = false.

(** What the loop of [update_formulas_in_sheet] may do to a cell: leave it
    as it is, or give a formula cell its adjusted formula where that differs
    from the original one. *)
Definition cell_rewritten {tables : UnicodeTables} (row_mapping : gmap Z (option Z))
    (c c' : cell) : Prop :=
  data_type c = py "f" ∧
  ∃ original_formula new_formula,
    cell_value c = VStr original_formula ∧
    adjust_formula_references original_formula row_mapping = Returns new_formula ∧
    new_formula ≠ original_formula ∧
    c' = Cell (data_type c) (VStr new_formula).

Definition cell_step {tables : UnicodeTables} (row_mapping : gmap Z (option Z))
    (c c' : cell) : Prop :=
  c' = c ∨ cell_rewritten row_mapping c c'.

(** What the loop has done to a cell when it is through: the cell holds its
    adjusted formula, and it is as it was only where there is no adjusted
    formula for it to hold. *)
Definition cell_updated {tables : UnicodeTables}
    (row_mapping : gmap Z (option Z)) (c c' : cell) : Prop :=
  cell_rewritten row_mapping c c' ∨
  (c' = c ∧ ∀ c'', ¬ cell_rewritten row_mapping c c'').

(** The formula of the cell, if it is a formula cell, is adjusted without
    an exception. *)
Definition cell_adjustable {tables : UnicodeTables}
    (row_mapping : gmap Z (option Z)) (c : cell) : Prop :=
  data_type c = py "f" →
  ∀ formula, cell_value c = VStr formula →
    ∃ new_formula,
      adjust_formula_references formula row_mapping = Returns new_formula.

(** The number of positions at which two worksheets hold different values. *)
Definition changed_in_row (row row' : list cell) : nat :=
  length (filter (λ cc, cell_value cc.1 ≠ cell_value cc.2) (zip row row')).

Definition changed_cells (ws ws' : list (list cell)) : nat :=
  sum_list (zip_with changed_in_row ws ws').

(** ** A worksheet for the concrete inputs *)

(** A worksheet of a header row and three data rows. *)
Definition regions : list (list cell) :=
  [ [Cell (py "s") (VStr (py "Region")); Cell (py "s") (VStr (py "Sales"))];
    [Cell (py "s") (VStr (py "East")); Cell (py "n") (VInt 10)];
    [Cell (py "s") (VStr (py "West")); Cell (py "n") (VInt 20)];
    [Cell (py "s") (VStr (py "East")); Cell (py "f") (VStr (py "=B2+B3"))] ].

(** The text of the object values of a worksheet that holds none. *)
Definition no_text : nat → str := λ _, [].

(** ** Row mapper: proofs *)

Section row_mapper.
Context {V : Type}.
Implicit Types (original_map : gmap Z V) (deleted_rows l : list Z).

Lemma sorted_keys_perm original_map :
  sorted_keys original_map ≡ₚ elements (dom original_map).
Proof. apply merge_sort_Permutation. Qed.

Lemma sorted_keys_NoDup original_map : NoDup (sorted_keys original_map).
Proof. rewrite sorted_keys_perm. apply NoDup_elements. Qed.

Lemma sorted_keys_sorted original_map :
  StronglySorted Z.le (sorted_keys original_map).
Proof. apply StronglySorted_merge_sort; apply _. Qed.

Lemma elem_of_sorted_keys original_map r :
  r ∈ sorted_keys original_map ↔ r ∈ dom original_map.
Proof. rewrite sorted_keys_perm. apply elem_of_elements. Qed.
End row_mapper.

(** The loop of the row mapper over any duplicate-free list of rows. *)
Lemma foldl_mapping_step (deleted_rows l : list Z) : ∀ m0 off0,
  NoDup l →
  (foldl (mapping_step deleted_rows) (m0, off0) l).2
    = off0 + Z.of_nat (length (filter (.∈ deleted_rows) l)) ∧
  (∀ r, r ∉ l → (foldl (mapping_step deleted_rows) (m0, off0) l).1 !! r = m0 !! r) ∧
  (∀ l1 r l2, l = l1 ++ r :: l2 →
     (foldl (mapping_step deleted_rows) (m0, off0) l).1 !! r =
       Some (if bool_decide (r ∈ deleted_rows) then None
             else Some (r - off0 - Z.of_nat (length (filter (.∈ deleted_rows) l1))))).
Proof.
  induction l as [|x l IH]; intros m0 off0 Hnd; cbn [foldl].
  - simpl. split; [lia|]. split; [done|]. intros [|??] ???; discriminate.
  - apply NoDup_cons in Hnd as [Hx Hnd].
    assert (Hst1 : ∃ m1 off1, mapping_step deleted_rows (m0, off0) x = (m1, off1)
            ∧ off1 = off0 + (if bool_decide (x ∈ deleted_rows) then 1 else 0)
            ∧ m1 !! x = Some (if bool_decide (x ∈ deleted_rows) then None
                              else Some (x - off0))
            ∧ ∀ r, r ≠ x → m1 !! r = m0 !! r).
    { unfold mapping_step. case_bool_decide; eexists _, _; (split; [done|]).
      - split; [lia|]. split; [apply lookup_insert_eq|].
        intros. by apply lookup_insert_ne.
      - split; [lia|]. split; [apply lookup_insert_eq|].
        intros. by apply lookup_insert_ne. }
    destruct Hst1 as (m1 & off1 & -> & Ho1 & Hx1 & Hne1).
    destruct (IH m1 off1 Hnd) as (Hoff & Hout & Hin).
    split; [|split].
    + rewrite Hoff, Ho1, filter_cons.
      case_bool_decide; case_decide; simpl; try done; lia.
    + intros r Hr. apply not_elem_of_cons in Hr as [??].
      rewrite Hout by done. by apply Hne1.
    + intros l1 r l2 Heq. destruct l1 as [|y l1]; injection Heq as <- Heq.
      * subst l2. rewrite Hout by done. rewrite Hx1.
        case_bool_decide; [done|]. do 2 f_equal. simpl. lia.
      * rewrite (Hin l1 r l2 Heq), filter_cons.
        destruct (bool_decide (r ∈ deleted_rows)); [done|]. do 2 f_equal.
        case_bool_decide; case_decide; simpl; try done; lia.
Qed.

Lemma size_filter_list (P : Z → Prop) `{!∀ x, Decision (P x)} (X : gset Z) l :
  NoDup l → (∀ x, x ∈ l ↔ x ∈ X) →
  size (filter P X) = length (filter P l).
Proof.
  intros Hnd Hl.
  rewrite <- (size_list_to_set (C := gset Z) (filter P l)) by by apply NoDup_filter.
  f_equal. apply set_eq. intros x.
  rewrite elem_of_filter, elem_of_list_to_set, list_elem_of_filter, Hl. done.
Qed.

(** In an ascending duplicate-free list, the rows below [r] are the rows
    in front of [r]. *)
Lemma filter_below_sorted (deleted_rows : list Z) l1 r l2 :
  StronglySorted Z.le (l1 ++ r :: l2) → NoDup (l1 ++ r :: l2) →
  filter (λ k, k ∈ deleted_rows ∧ k < r) (l1 ++ r :: l2)
    = filter (.∈ deleted_rows) l1.
Proof.
  intros Hs Hnd.
  assert (Hlt : Forall (λ k, k < r) l1).
  { apply Forall_forall. intros k Hk.
    assert (k ≤ r)
      by (apply (StronglySorted_app_1_elem_of _ _ _ k r Hs); set_solver).
    apply NoDup_app in Hnd as (_ & Hl1 & _).
    assert (k ≠ r) by (intros ->; apply (Hl1 r); set_solver).
    lia. }
  assert (Hge : Forall (λ k, r ≤ k) (r :: l2)).
  { apply StronglySorted_app_1_r, StronglySorted_inv in Hs as [_ Hr].
    constructor; [lia|done]. }
  rewrite filter_app.
  assert (filter (λ k, k ∈ deleted_rows ∧ k < r) (r :: l2) = []) as ->.
  { generalize (r :: l2) Hge. intros l Hl.
    induction Hl as [|y l Hy _ IH]; [done|].
    by rewrite filter_cons, decide_False by lia. }
  rewrite app_nil_r. clear Hs Hnd Hge.
  induction Hlt as [|y l Hy _ IH]; [done|].
  rewrite !filter_cons, IH.
  destruct (decide (y ∈ deleted_rows)).
  - by rewrite decide_True by done.
  - by rewrite decide_False by tauto.
Qed.

(** The loop run on the sorted keys, read off at a row of the input. *)
Lemma build_row_mapping_lookup {V} (original_map : gmap Z V)
    (deleted_rows : list Z) r :
  r ∈ dom original_map →
  build_row_mapping_after_deletion original_map deleted_rows !! r =
    Some (if bool_decide (r ∈ deleted_rows) then None
          else Some (r - Z.of_nat (deleted_below original_map deleted_rows r))).
Proof.
  intros Hr. apply elem_of_sorted_keys, list_elem_of_split in Hr as (l1 & l2 & Hl).
  unfold build_row_mapping_after_deletion.
  pose proof (sorted_keys_NoDup original_map) as Hnd.
  pose proof (sorted_keys_sorted original_map) as Hs.
  destruct (foldl_mapping_step deleted_rows _ ∅ 0 Hnd) as (_ & _ & Hin).
  rewrite (Hin _ _ _ Hl). unfold deleted_below.
  rewrite (size_filter_list _ _ (sorted_keys original_map) Hnd)
    by apply elem_of_sorted_keys.
  rewrite Hl in Hs, Hnd |- *.
  rewrite (filter_below_sorted deleted_rows l1 r l2 Hs Hnd).
  destruct (bool_decide (r ∈ deleted_rows)); [done|]. do 2 f_equal. lia.
Qed.

Lemma build_row_mapping_outside {V} (original_map : gmap Z V)
    (deleted_rows : list Z) r :
  r ∉ dom original_map →
  build_row_mapping_after_deletion original_map deleted_rows !! r = None.
Proof.
  intros Hr. unfold build_row_mapping_after_deletion.
  destruct (foldl_mapping_step deleted_rows _ ∅ 0
              (sorted_keys_NoDup original_map)) as (_ & Hout & _).
  rewrite Hout; [done|]. by rewrite elem_of_sorted_keys.
Qed.

(** C1.  The mapping built by [build_row_mapping_after_deletion] is defined
    on exactly the rows of the input; a row marked for deletion is mapped to
    the tombstone, and a retained row [r] is mapped to [r] minus the number of
    deleted rows of the input that are smaller than [r]. *)
Theorem build_row_mapping_spec {V} (original_map : gmap Z V) (deleted_rows : list Z) :
  let mapping := build_row_mapping_after_deletion original_map deleted_rows in
  dom mapping = dom original_map ∧
  (∀ r, r ∈ dom original_map → r ∈ deleted_rows → mapping !! r = Some None) ∧
  (∀ r, r ∈ dom original_map → r ∉ deleted_rows →
     mapping !! r =
       Some (Some (r - Z.of_nat (deleted_below original_map deleted_rows r)))).
Proof.
  intros mapping. subst mapping. split; [|split].
  - apply set_eq. intros r. rewrite elem_of_dom.
    destruct (decide (r ∈ dom original_map)) as [Hr|Hr].
    + rewrite build_row_mapping_lookup by done. split; [done|eauto].
    + rewrite build_row_mapping_outside by done. split; [|done].
      by intros [??].
  - intros r Hr HD. rewrite build_row_mapping_lookup by done.
    by rewrite bool_decide_eq_true_2.
  - intros r Hr HD. rewrite build_row_mapping_lookup by done.
    by rewrite bool_decide_eq_false_2.
Qed.

(** Between two retained rows, at most the rows strictly in between can have
    been deleted. *)
Lemma deleted_below_gap {V} (original_map : gmap Z V) (deleted_rows : list Z) a b :
  a ∉ deleted_rows → a < b →
  Z.of_nat (deleted_below original_map deleted_rows b)
    < Z.of_nat (deleted_below original_map deleted_rows a) + (b - a).
Proof.
  intros Ha Hab. unfold deleted_below.
  set (A := filter (λ k, k ∈ deleted_rows ∧ k < a) (dom original_map)).
  set (B := filter (λ k, k ∈ deleted_rows ∧ k < b) (dom original_map)).
  set (I := list_to_set (seqZ (a + 1) (b - a - 1)) : gset Z).
  assert (HB : B ⊆ A ∪ I).
  { intros k. unfold A, B, I.
    rewrite elem_of_union, !elem_of_filter, elem_of_list_to_set, elem_of_seqZ.
    intros [[HD Hk] Hdom].
    destruct (decide (k = a)) as [->|]; [done|].
    destruct (decide (k < a)); [left|right]; [done|lia]. }
  apply subseteq_size in HB. rewrite size_union_alt in HB.
  assert (size (I ∖ A) ≤ size I)%nat
    by (apply subseteq_size; intros k; rewrite elem_of_difference; tauto).
  assert (size I = Z.to_nat (b - a - 1)) as HI.
  { unfold I. rewrite size_list_to_set by apply NoDup_seqZ. apply length_seqZ. }
  lia.
Qed.

Lemma dom_rows_1_to_N {V} (original_map : gmap Z V) (N : nat) r :
  dom original_map = list_to_set (seqZ 1 (Z.of_nat N)) →
  r ∈ dom original_map ↔ 1 ≤ r ≤ Z.of_nat N.
Proof. intros ->. rewrite elem_of_list_to_set, elem_of_seqZ. lia. Qed.

(** C4.  The mapping built for rows [1..N] is strictly increasing on the
    retained rows: retained rows [a < b] are mapped to new rows
    [a' < b']. *)
Theorem row_mapping_strictly_increasing {V} (original_map : gmap Z V)
    (N : nat) (deleted_rows : list Z) (a b : Z) :
  dom original_map = list_to_set (seqZ 1 (Z.of_nat N)) →
  1 ≤ a ≤ Z.of_nat N → 1 ≤ b ≤ Z.of_nat N → a ∉ deleted_rows → b ∉ deleted_rows → a < b →
  ∃ a' b',
    build_row_mapping_after_deletion original_map deleted_rows !! a = Some (Some a') ∧
    build_row_mapping_after_deletion original_map deleted_rows !! b = Some (Some b') ∧
    a' < b'.
Proof.
  intros Hdom Ha Hb HaD HbD Hab.
  apply (dom_rows_1_to_N _ _ _ Hdom) in Ha, Hb.
  pose proof (build_row_mapping_lookup original_map deleted_rows) as Hlook.
  eexists _, _.
  split; [by rewrite (Hlook a Ha), bool_decide_eq_false_2|].
  split; [by rewrite (Hlook b Hb), bool_decide_eq_false_2|].
  pose proof (deleted_below_gap original_map deleted_rows a b HaD Hab). lia.
Qed.

Lemma seqZ_sorted m (n : nat) : Sorted Z.le (seqZ m (Z.of_nat n)).
Proof.
  revert m. induction n as [|n IH]; intros m; [constructor|].
  rewrite seqZ_cons by lia.
  replace (Z.pred (Z.of_nat (S n))) with (Z.of_nat n) by lia.
  constructor; [apply IH|].
  destruct n as [|n]; [constructor|].
  rewrite seqZ_cons by lia. constructor. lia.
Qed.

Lemma sorted_keys_rows_1_to_N {V} (original_map : gmap Z V) (N : nat) :
  dom original_map = list_to_set (seqZ 1 (Z.of_nat N)) →
  sorted_keys original_map = seqZ 1 (Z.of_nat N).
Proof.
  intros Hdom. apply (Sorted_unique Z.le).
  - apply Sorted_merge_sort; apply _.
  - apply seqZ_sorted.
  - apply NoDup_Permutation;
      [apply sorted_keys_NoDup|apply NoDup_seqZ|].
    intros r. rewrite elem_of_sorted_keys, Hdom. apply elem_of_list_to_set.
Qed.

(** The new row numbers handed out while the loop walks the rows [1..n]. *)
Lemma foldl_rows_values (deleted_rows : list Z) (n : nat) v :
  (∃ r, (foldl (mapping_step deleted_rows) (∅, 0) (seqZ 1 (Z.of_nat n))).1 !! r
          = Some (Some v)) ↔
  1 ≤ v ≤ Z.of_nat n
          - Z.of_nat (length (filter (.∈ deleted_rows) (seqZ 1 (Z.of_nat n)))).
Proof.
  induction n as [|n IH].
  - simpl. split; [|lia]. intros [r Hr]. by rewrite lookup_empty in Hr.
  - rewrite seqZ_S, foldl_snoc, filter_app, length_app.
    destruct (foldl_mapping_step deleted_rows (seqZ 1 (Z.of_nat n)) ∅ 0
                (NoDup_seqZ _ _)) as (Hoff & Hout & _).
    destruct (foldl _ _ _) as [m off]; simpl in *.
    assert (Hfresh : m !! (1 + Z.of_nat n) = None).
    { rewrite Hout; [done|]. rewrite elem_of_seqZ. lia. }
    pose proof (length_filter (.∈ deleted_rows) (seqZ 1 (Z.of_nat n))) as Hle.
    rewrite length_seqZ in Hle.
    rewrite filter_cons. unfold mapping_step.
    case_bool_decide; case_decide; try done; simpl.
    + trans (∃ r, m !! r = Some (Some v)); [|rewrite IH; lia]. split; intros [r Hr]; exists r.
      * destruct (decide (r = 1 + Z.of_nat n)) as [->|];
          [by rewrite lookup_insert_eq in Hr|by rewrite lookup_insert_ne in Hr].
      * rewrite lookup_insert_ne; [done|]. intros <-. congruence.
    + split.
      * intros [r Hr]. destruct (decide (r = 1 + Z.of_nat n)) as [->|].
        -- rewrite lookup_insert_eq in Hr. simplify_eq. lia.
        -- rewrite lookup_insert_ne in Hr by done.
           assert (1 ≤ v ≤ Z.of_nat n - Z.of_nat (length (filter (.∈ deleted_rows)
                     (seqZ 1 (Z.of_nat n))))) by (apply IH; eauto). lia.
      * intros Hv. destruct (decide (v = 1 + Z.of_nat n - off)) as [->|].
        -- exists (1 + Z.of_nat n). apply lookup_insert_eq.
        -- destruct (proj2 IH) as [r Hr]; [lia|]. exists r.
           rewrite lookup_insert_ne; [done|]. intros <-. congruence.
Qed.

(** C9.  When the input rows are exactly [1..N] and [d] of them are marked
    for deletion, the new row numbers of the retained rows are exactly
    [1..N-d]. *)
Theorem compaction_range {V} (original_map : gmap Z V) (N : nat)
    (deleted_rows : list Z) :
  dom original_map = list_to_set (seqZ 1 (Z.of_nat N)) →
  let d := size (filter (.∈ deleted_rows) (dom original_map)) in
  ∀ v, (∃ r, build_row_mapping_after_deletion original_map deleted_rows !! r
               = Some (Some v))
       ↔ 1 ≤ v ≤ Z.of_nat N - Z.of_nat d.
Proof.
  intros Hdom d v. subst d. unfold build_row_mapping_after_deletion.
  rewrite (size_filter_list _ _ (seqZ 1 (Z.of_nat N)) (NoDup_seqZ _ _)).
  - rewrite (sorted_keys_rows_1_to_N _ _ Hdom). apply foldl_rows_values.
  - intros r. rewrite Hdom. by rewrite elem_of_list_to_set.
Qed.

(** ** The regular expressions of the rewriter *)

Lemma bind_returns {A B} (a : A) (f : A → outcome B) : (Returns a ≫= f) = f a.
Proof. done. Qed.

Lemma plus_match_inv {A} p s (k : str → option A) a :
  plus_match p s k = Some a →
  ∃ l s', s = l ++ s' ∧ l ≠ [] ∧ Forall (λ c, p c = true) l ∧ k s' = Some a.
Proof.
  revert a. induction s as [|c s IH]; intros a; simpl; [done|].
  destruct (p c) eqn:Hc; [|done].
  destruct (plus_match p s k) as [b|] eqn:Hs.
  - intros [= ->]. destruct (IH _ eq_refl) as (l & s' & -> & _ & Hl & Hk).
    exists (c :: l), s'. repeat split; [done|by constructor|done].
  - intros Hk. exists [c], s. repeat split; [done|by repeat constructor|done].
Qed.

(** A run that cannot be extended is matched whole when the rest of the
    pattern accepts what follows it. *)
Lemma plus_match_run {A} p l s (k : str → option A) a :
  l ≠ [] → Forall (λ c, p c = true) l → k s = Some a →
  head (p <$> s) ≠ Some true →
  plus_match p (l ++ s) k = Some a.
Proof.
  intros Hne Hl Hk Hs.
  assert (Hstop : plus_match p s k = None).
  { destruct s as [|c s]; [done|]. simpl in *. destruct (p c); [done|done]. }
  induction Hl as [|c l Hc Hl IH]; [done|]. simpl. rewrite Hc.
  destruct l as [|c' l].
  - simpl in *. by rewrite Hstop.
  - by rewrite IH.
Qed.

Lemma rmatch_marked_run_inv {A} p s c (k : str → captures → option A) a :
  rmatch (Cat (Opt (Class (is_char dollar))) (Plus p)) s c k = Some a →
  ∃ mark run s', s = mark ++ run ++ s' ∧ marked_run p mark run ∧ k s' c = Some a.
Proof.
  cbn [rmatch]. intros H.
  assert (plus_match p s (λ s', k s' c) = Some a ∨
          ∃ s1, s = dollar :: s1 ∧ plus_match p s1 (λ s', k s' c) = Some a)
    as [Hp|(s1 & -> & Hp)].
  { destruct s as [|x s1]; [by left|].
    destruct (is_char dollar x) eqn:Hx; [|by left].
    apply N.eqb_eq in Hx as ->.
    destruct (plus_match p s1 _) eqn:Hp; [right|left]; [|done].
    exists s1. by simplify_eq. }
  - apply plus_match_inv in Hp as (run & s' & -> & ? & ? & ?).
    exists [], run, s'. repeat split; auto.
  - apply plus_match_inv in Hp as (run & s' & -> & ? & ? & ?).
    exists [dollar], run, s'. repeat split; auto.
Qed.

Lemma rmatch_marked_run {A} p mark run s c (k : str → captures → option A) a :
  marked_run p mark run → p dollar = false →
  head (p <$> s) ≠ Some true → k s c = Some a →
  rmatch (Cat (Opt (Class (is_char dollar))) (Plus p)) (mark ++ run ++ s) c k
    = Some a.
Proof.
  intros ([->| ->] & Hne & Hrun) Hd Hs Hk; cbn [rmatch].
  - destruct run as [|x run]; [done|]. simpl app.
    apply Forall_cons in Hrun as [Hx Hrun].
    assert (is_char dollar x = false) as ->.
    { apply N.eqb_neq. intros ->. congruence. }
    apply (plus_match_run p (x :: run) s); [done|by constructor|done..].
  - simpl. by rewrite (plus_match_run p run s _ a).
Qed.

Lemma take_consumed (l s : str) : take (length (l ++ s) - length s) (l ++ s) = l.
Proof.
  rewrite length_app. replace (length l + length s - length s)%nat
    with (length l) by lia. by rewrite take_app_length.
Qed.

Lemma rmatch_Cat {A} r1 r2 s c (k : str → captures → option A) :
  rmatch (Cat r1 r2) s c k = rmatch r1 s c (λ s' c', rmatch r2 s' c' k).
Proof. done. Qed.

Lemma rmatch_Group {A} i r s c (k : str → captures → option A) :
  rmatch (Group i r) s c k
  = rmatch r s c (λ s' c', k s' ((i, take (length s - length s') s) :: c')).
Proof. done. Qed.

Lemma parts_match_inv ref rest groups :
  re_match parts_pattern ref = Some (rest, groups) →
  reference_parts (group_text 1 groups) (group_text 2 groups) ∧
  ref = group_text 1 groups ++ group_text 2 groups ++ rest.
Proof.
  unfold re_match, parts_pattern. rewrite rmatch_Cat, rmatch_Group. intros H.
  apply rmatch_marked_run_inv in H as (cmark & letters & s1 & -> & Hc & H).
  rewrite rmatch_Group in H.
  apply rmatch_marked_run_inv in H as (rmark & digits & s2 & -> & Hr & H).
  injection H as <- <-.
  rewrite !(assoc_L (++) cmark), !(assoc_L (++) rmark), !take_consumed.
  change (group_text 1 _) with (cmark ++ letters).
  change (group_text 2 _) with (rmark ++ digits).
  split; [|by rewrite <- !(assoc_L (++))].
  exists cmark, letters, rmark, digits. auto.
Qed.

Lemma upper_not_digit c : upper c = true → digit c = false.
Proof.
  unfold upper, digit, in_range. intros [H%N.leb_le _]%andb_true_iff.
  apply andb_false_iff. right. apply N.leb_gt. lia.
Qed.

Lemma parts_match_whole col_ref row_ref :
  reference_parts col_ref row_ref →
  re_match parts_pattern (col_ref ++ row_ref)
    = Some ([], [(2%nat, row_ref); (1%nat, col_ref)]).
Proof.
  intros (cmark & letters & rmark & digits & -> & -> & Hc & Hr).
  unfold re_match, parts_pattern. rewrite rmatch_Cat, rmatch_Group.
  rewrite <- !(assoc_L (++) cmark).
  apply rmatch_marked_run; [done|done| |].
  - destruct Hr as ([->| ->] & Hne & Hd); [|done].
    destruct Hd as [|d ds Hd _]; [done|]. simpl.
    destruct (upper d) eqn:Hu; [|done].
    apply upper_not_digit in Hu. congruence.
  - rewrite rmatch_Group.
    rewrite <- (app_nil_r (rmark ++ digits)), <- (assoc_L (++) rmark).
    apply rmatch_marked_run; [done|done|done|].
    rewrite !app_nil_r, (assoc_L (++) cmark letters), take_consumed.
    simpl length. by rewrite Nat.sub_0_r, take_ge.
Qed.

Lemma rmatch_Opt {A} r s c (k : str → captures → option A) :
  rmatch (Opt r) s c k
  = match rmatch r s c k with Some a => Some a | None => k s c end.
Proof. done. Qed.

Lemma rmatch_Cat_assoc {A} r1 r2 r3 s c (k : str → captures → option A) :
  rmatch (Cat r1 (Cat r2 r3)) s c k
  = rmatch (Cat r1 r2) s c (λ s' c', rmatch r3 s' c' k).
Proof. done. Qed.

Lemma cell_pattern_inv {A} s c (k : str → captures → option A) a :
  rmatch cell_pattern s c k = Some a →
  ∃ col_ref row_ref s',
    s = col_ref ++ row_ref ++ s' ∧ reference_parts col_ref row_ref ∧
    k s' c = Some a.
Proof.
  unfold cell_pattern. rewrite rmatch_Cat_assoc. intros Hm.
  apply rmatch_marked_run_inv in Hm as (cmark & letters & s1 & -> & Hc & Hm).
  apply rmatch_marked_run_inv in Hm as (rmark & digits & s2 & -> & Hr & Hm).
  exists (cmark ++ letters), (rmark ++ digits), s2.
  split; [by rewrite <- !(assoc_L (++))|]. split; [|done].
  exists cmark, letters, rmark, digits. auto.
Qed.

Lemma rmatch_no_group {A} r : no_group r = true →
  ∀ s c (k : str → captures → option A) a,
    rmatch r s c k = Some a → ∃ s', k s' c = Some a.
Proof.
  induction r as [p|r1 IH1 r2 IH2|r1 IH1|p|i r1 IH1]; simpl; intros Hng s c k a.
  - destruct s as [|x s]; [done|]. destruct (p x); [eauto|done].
  - apply andb_true_iff in Hng as [Hng1 Hng2].
    intros (s1 & Hm)%(IH1 Hng1). by apply (IH2 Hng2) in Hm.
  - destruct (rmatch r1 s c k) as [b|] eqn:Hm; [|eauto].
    intros [= ->]. by apply (IH1 Hng) in Hm.
  - intros (_ & s' & _ & _ & _ & Hk)%plus_match_inv. eauto.
  - done.
Qed.

Section reference_pattern.
Context {tables : UnicodeTables}.

(** Whatever sheet qualifier stands in front of it, group 1 of a match of
    the pattern of [parse_cell_references] is the text of a cell
    reference. *)
Lemma reference_match_inv s rest groups :
  re_match reference_pattern s = Some (rest, groups) →
  ∃ col_ref row_ref,
    group_text 1 groups = col_ref ++ row_ref ∧ reference_parts col_ref row_ref.
Proof.
  unfold re_match, reference_pattern. rewrite rmatch_Cat, rmatch_Opt.
  intros Hm.
  assert (∃ s', rmatch (Group 1 cell_pattern) s' []
                  (λ s' c, Some (s', c)) = Some (rest, groups)) as [s1 Hg].
  { destruct (rmatch sheet_pattern s [] _) as [b|] eqn:Hs.
    - simplify_eq. by apply (rmatch_no_group sheet_pattern eq_refl) in Hs.
    - eauto. }
  rewrite rmatch_Group in Hg.
  apply cell_pattern_inv in Hg as (col_ref & row_ref & s' & -> & Hparts & Hg).
  injection Hg as <- <-. exists col_ref, row_ref. split; [|done].
  unfold group_text. simpl.
  by rewrite (assoc_L (++) col_ref), take_consumed.
Qed.

Lemma findall_reference_parts skip s ref :
  ref ∈ findall_from reference_pattern skip s →
  ∃ col_ref row_ref, ref = col_ref ++ row_ref ∧ reference_parts col_ref row_ref.
Proof.
  revert skip. induction s as [|x s IH]; intros skip; simpl.
  { by intros ?%elem_of_nil. }
  destruct skip as [|n]; [|by apply IH].
  destruct (re_match reference_pattern (x :: s)) as [[rest groups]|] eqn:Hm;
    [|by apply IH].
  intros [->|Hin]%elem_of_cons; [|by apply IH in Hin].
  by apply reference_match_inv in Hm.
Qed.

Lemma parse_cell_references_parts formula ref :
  ref ∈ parse_cell_references formula →
  ∃ col_ref row_ref, ref = col_ref ++ row_ref ∧ reference_parts col_ref row_ref.
Proof.
  unfold parse_cell_references, findall. destruct formula.
  - by intros ?%elem_of_nil.
  - apply findall_reference_parts.
Qed.
End reference_pattern.

(** ** Integers and their decimal text *)

Lemma digit_cons_digit c :
  digit c = true →
  ∃ d, digit_cons c = Some d ∧
       (∀ u, digits_of_uint (d u) = c :: digits_of_uint u) ∧
       (c ≠ 48%N → ∀ u, unorm (d u) = d u).
Proof.
  unfold digit, in_range. intros [Hlo%N.leb_le Hhi%N.leb_le]%andb_true_iff.
  assert (c = 48%N ∨ c = 49%N ∨ c = 50%N ∨ c = 51%N ∨ c = 52%N ∨ c = 53%N
          ∨ c = 54%N ∨ c = 55%N ∨ c = 56%N ∨ c = 57%N) as Hc by lia.
  destruct_or!; subst c; (eexists; split; [done|]; split; [done|]; done).
Qed.

Lemma uint_of_digits_run digits :
  Forall (λ c, digit c = true) digits →
  ∃ u, uint_of_digits digits = Some u ∧ digits_of_uint u = digits.
Proof.
  induction 1 as [|c digits Hc _ (u & Hu & Hd)]; [by exists Nil|].
  destruct (digit_cons_digit c Hc) as (d & Hdc & Hshow & _).
  exists (d u). simpl. by rewrite Hdc, Hu, Hshow, Hd.
Qed.

Lemma uint_of_digits_plain digits u :
  Forall (λ c, digit c = true) digits → digits ≠ [] →
  no_leading_zero digits = true →
  uint_of_digits digits = Some u → unorm u = u.
Proof.
  intros Hd Hne Hplain Hu.
  destruct Hd as [|c digits Hc Hd]; [done|].
  destruct (digit_cons_digit c Hc) as (d & Hdc & _ & Hnorm).
  simpl in Hu. rewrite Hdc in Hu.
  destruct (uint_of_digits digits) as [u'|] eqn:Hu'; [|done].
  injection Hu as <-.
  destruct (decide (c = 48%N)) as [->|Hc0]; [|by apply Hnorm].
  destruct digits as [|c' digits]; [|done].
  simpl in *. by simplify_eq.
Qed.

Lemma str_of_int_of_uint u :
  str_of_int (Z.of_N (N.of_uint u)) = digits_of_uint (unorm u).
Proof.
  unfold str_of_int.
  assert ((Z.of_N (N.of_uint u) <? 0) = false) as -> by (apply Z.ltb_ge; lia).
  by rewrite Zabs2N.id, DecimalN.Unsigned.to_of.
Qed.

Lemma length_digits_of_uint u : length (digits_of_uint u) = nb_digits u.
Proof. induction u; simpl; by f_equal. Qed.

(** [int] on a run of digits: the number, unless the run is too long. *)
Lemma int_of_run digits :
  digits ≠ [] → Forall (λ c, digit c = true) digits →
  ∃ u, uint_of_digits digits = Some u ∧ digits_of_uint u = digits ∧
       int digits = if Z.of_nat (length digits) <=? max_str_digits
                    then Returns (Z.of_N (N.of_uint u))
                    else Raises ValueError.
Proof.
  intros Hne Hd. destruct (uint_of_digits_run digits Hd) as (u & Hu & Hshow).
  exists u. split; [done|]. split; [done|].
  unfold int. destruct digits; [done|]. by rewrite Hu.
Qed.

(** A number that [int] has read is a number that [str] writes. *)
Lemma decimal_digits_of_uint u :
  u ≠ Nil → (decimal_digits (Z.of_N (N.of_uint u)) ≤ nb_digits u)%nat.
Proof.
  intros Hu. unfold decimal_digits.
  rewrite Zabs2N.id, DecimalN.Unsigned.to_of. by apply nb_digits_unorm.
Qed.

Lemma int_returns_writable digits n :
  Forall (λ c, digit c = true) digits → int digits = Returns n →
  Z.of_nat (decimal_digits n) ≤ max_str_digits.
Proof.
  intros Hd Hint.
  assert (Hne : digits ≠ []) by (by intros ->).
  destruct (int_of_run digits Hne Hd) as (u & _ & Hshow & Hread).
  rewrite Hread in Hint.
  destruct (Z.leb_spec (Z.of_nat (length digits)) max_str_digits) as [Hle|];
    [|done].
  injection Hint as <-.
  assert (u ≠ Nil) as Hu by (intros ->; by subst digits).
  pose proof (decimal_digits_of_uint u Hu) as Hlen.
  rewrite <- length_digits_of_uint, Hshow in Hlen. lia.
Qed.

Lemma str_int_writable v :
  Z.of_nat (decimal_digits v) ≤ max_str_digits →
  str_int v = Returns (str_of_int v).
Proof. intros Hv. unfold str_int. by rewrite (proj2 (Z.leb_le _ _) Hv). Qed.

(** The dollar sign in front of the row number is taken off before [int]
    reads the digits. *)
Lemma read_row_ref rmark digits :
  marked_run digit rmark digits →
  (if startswith (rmark ++ digits) [dollar]
   then n ← int (drop 1 (rmark ++ digits)); Returns (n, true)
   else n ← int (rmark ++ digits); Returns (n, false))
  = (n ← int digits; Returns (n, bool_decide (rmark = [dollar]))).
Proof.
  intros (Hmark & Hne & Hd).
  destruct Hmark as [->| ->].
  - rewrite app_nil_l.
    assert (startswith digits [dollar] = false) as ->; [|done].
    destruct Hd as [|c digits Hc Hd]; [done|]. simpl.
    apply andb_false_iff. left. apply N.eqb_neq. by intros ->.
  - done.
Qed.

Lemma strip_mark rmark digits :
  marked_run digit rmark digits →
  (if startswith (rmark ++ digits) [dollar]
   then drop 1 (rmark ++ digits) else rmark ++ digits) = digits.
Proof.
  intros ([->| ->] & _ & Hd); [|done]. rewrite app_nil_l.
  destruct Hd as [|c digits Hc Hd]; [done|]. simpl.
  assert ((c =? dollar)%N = false) as -> by (apply N.eqb_neq; by intros ->).
  done.
Qed.

(** ** The loop body of the rewriter *)

(** The loop body on a reference in which the pattern finds the two parts:
    [int] reads the digits of the row, and where the mapping has a new row
    for it, [str] writes it and the text of the reference is replaced. *)
Lemma adjust_reference_match row_mapping new_formula ref rest groups :
  re_match parts_pattern ref = Some (rest, groups) →
  ∃ rmark digits,
    group_text 2 groups = rmark ++ digits ∧
    marked_run digit rmark digits ∧
    row_digits ref = Some digits ∧
    adjust_reference row_mapping new_formula ref
    = (n ← int digits;
       match row_mapping !! n with
       | Some (Some v) =>
         new_row_text ← str_int v;
         Returns (replace new_formula ref
                    (group_text 1 groups ++ rmark ++ new_row_text))
       | _ => Returns new_formula
       end).
Proof.
  intros Hm. unfold adjust_reference, row_digits. rewrite Hm.
  apply parts_match_inv in Hm
    as [(cmark & letters & rmark & digits & _ & Hrow & _ & Hr) _].
  exists rmark, digits. rewrite Hrow.
  split; [done|]. split; [done|]. split; [by rewrite (strip_mark _ _ Hr)|].
  rewrite (read_row_ref _ _ Hr).
  destruct (int digits) as [n|e]; [|done]. rewrite !bind_returns.
  unfold getitem. case_bool_decide as Hin.
  - apply elem_of_dom in Hin as [new_row_num Hlook].
    rewrite Hlook, bind_returns. destruct new_row_num as [v|]; [|done].
    destruct (str_int v) as [new_row_text|e]; [|done].
    rewrite !bind_returns. do 3 f_equal.
    destruct Hr as ([->| ->] & _); by simpl.
  - apply not_elem_of_dom in Hin. by rewrite Hin.
Qed.

(** The row number of a reference, from its digits. *)
Lemma row_number_digits ref digits :
  row_digits ref = Some digits →
  row_number ref = match int digits with
                   | Returns n => Some n
                   | Raises _ => None
                   end.
Proof. unfold row_number. by intros ->. Qed.

(** The loop body returns the formula as it is or with the text of the
    reference replaced, when neither [int] nor [str] meets the limit. *)
Lemma adjust_reference_returns row_mapping new_formula ref :
  within_limits row_mapping ref →
  adjust_reference row_mapping new_formula ref = Returns new_formula ∨
  ∃ new_ref,
    adjust_reference row_mapping new_formula ref
    = Returns (replace new_formula ref new_ref).
Proof.
  intros (n & Hn & Hwrite).
  destruct (re_match parts_pattern ref) as [[rest groups]|] eqn:Hm.
  2:{ unfold row_number, row_digits in Hn. by rewrite Hm in Hn. }
  destruct (adjust_reference_match row_mapping new_formula ref rest groups Hm)
    as (rmark & digits & _ & _ & Hdigits & ->).
  rewrite (row_number_digits _ _ Hdigits) in Hn.
  destruct (int digits) as [n'|]; [|done]. injection Hn as ->.
  rewrite bind_returns.
  destruct (row_mapping !! n) as [[v|]|] eqn:Hlook; [|by left..].
  rewrite (str_int_writable v) by by apply Hwrite.
  rewrite bind_returns. right. eauto.
Qed.

(** ** The formula rewriter: when it returns *)

Lemma insert_by_len_perm ref sorted : insert_by_len ref sorted ≡ₚ ref :: sorted.
Proof.
  induction sorted as [|r sorted IH]; simpl; [done|].
  destruct (length r <=? length ref)%nat; [done|].
  rewrite IH. apply Permutation_swap.
Qed.

Lemma sort_by_len_desc_perm cell_refs : sort_by_len_desc cell_refs ≡ₚ cell_refs.
Proof.
  induction cell_refs as [|ref cell_refs IH]; simpl; [done|].
  by rewrite insert_by_len_perm, IH.
Qed.

Lemma for_each_total {S X} (body : S → X → outcome S) (l : list X) :
  Forall (λ x, ∀ s, ∃ s', body s x = Returns s') l →
  ∀ s, ∃ s', for_each body s l = Returns s'.
Proof.
  induction 1 as [|x l Hbody _ IH]; intros s; simpl; [eauto|].
  destruct (Hbody s) as [s' ->]. apply IH.
Qed.

Section rewriter_total.
Context {tables : UnicodeTables}.

Lemma adjust_formula_references_returns formula row_mapping :
  Forall (within_limits row_mapping) (parse_cell_references formula) →
  ∃ result, adjust_formula_references formula row_mapping = Returns result.
Proof.
  intros Hlimits. unfold adjust_formula_references.
  destruct formula; [eauto|]. destruct (negb _); [eauto|].
  apply for_each_total. rewrite sort_by_len_desc_perm.
  eapply Forall_impl; [exact Hlimits|]. intros ref Href new_formula.
  destruct (adjust_reference_returns row_mapping new_formula ref Href)
    as [->|[new_ref ->]]; eauto.
Qed.

(** C7, amended.  [adjust_formula_references] returns for a string and a
    row mapping when the row number of every extracted reference is within
    the limit of [int] and is not mapped to a new row number beyond the
    limit of [str]; and a string that does not start with the equals sign
    is returned as it is. *)
Theorem adjust_formula_references_total (formula : str)
    (row_mapping : gmap Z (option Z)) :
  (Forall (within_limits row_mapping) (parse_cell_references formula) →
   ∃ result, adjust_formula_references formula row_mapping = Returns result) ∧
  (startswith formula (py "=") = false →
   adjust_formula_references formula row_mapping = Returns formula).
Proof.
  split; [apply adjust_formula_references_returns|].
  unfold adjust_formula_references. intros ->. by destruct formula.
Qed.
End rewriter_total.

(** ** Rewriting under a mapping without deletions *)

Lemma replace_from_skip old new n s :
  replace_from old new n s = replace_from old new 0 (drop n s).
Proof.
  revert n. by induction s as [|c s IH]; intros [|n]; simpl.
Qed.

Lemma startswith_split s prefix :
  startswith s prefix = true → s = prefix ++ drop (length prefix) s.
Proof.
  revert s. induction prefix as [|p prefix IH]; intros s; simpl; [done|].
  destruct s as [|c s]; [done|].
  intros [->%N.eqb_eq Hs]%andb_true_iff. simpl. f_equal. by apply IH.
Qed.

(** Replacing a text by itself changes nothing. *)
Lemma replace_same s old : old ≠ [] → replace s old old = s.
Proof.
  intros Hold. unfold replace. destruct old as [|o old]; [done|]. clear Hold.
  remember (length s) as n eqn:Hn. revert s Hn.
  induction n as [n IH] using lt_wf_ind. intros [|c s] Hn; [done|].
  cbn [replace_from].
  destruct (startswith (c :: s) (o :: old)) eqn:Hstart.
  - rewrite replace_from_skip. apply startswith_split in Hstart.
    etrans; [|symmetry; exact Hstart].
    change (length (o :: old) - 1)%nat with (length old - 0)%nat.
    rewrite Nat.sub_0_r. change (drop (length (o :: old)) (c :: s))
      with (drop (length old) s).
    f_equal. apply (IH (length (drop (length old) s))); [|done].
    rewrite length_drop. simpl in Hn. lia.
  - f_equal. apply (IH (length s)); [|done]. simpl in Hn. lia.
Qed.

(** Without deletions every row of the input is mapped to itself. *)
Lemma build_row_mapping_no_deletions {V} (original_map : gmap Z V) r :
  build_row_mapping_after_deletion original_map [] !! r
  = if decide (r ∈ dom original_map) then Some (Some r) else None.
Proof.
  case_decide as Hr; [|by apply build_row_mapping_outside].
  rewrite build_row_mapping_lookup by done.
  rewrite bool_decide_eq_false_2 by apply not_elem_of_nil.
  assert (deleted_below original_map [] r = 0%nat) as ->.
  { unfold deleted_below. apply size_empty_iff. intros k.
    rewrite elem_of_filter. split; [|by intros ?%not_elem_of_empty].
    by intros [[?%not_elem_of_nil _] _]. }
  do 2 f_equal. lia.
Qed.

Lemma adjust_reference_no_deletions {V} (original_map : gmap Z V)
    new_formula col_ref row_ref n :
  reference_parts col_ref row_ref →
  row_number (col_ref ++ row_ref) = Some n →
  (n ∈ dom original_map → plain_row (col_ref ++ row_ref) = true) →
  adjust_reference (build_row_mapping_after_deletion original_map [])
    new_formula (col_ref ++ row_ref) = Returns new_formula.
Proof.
  intros Hparts Hn Hplain.
  pose proof (parts_match_whole _ _ Hparts) as Hm.
  destruct (adjust_reference_match
              (build_row_mapping_after_deletion original_map [])
              new_formula _ _ _ Hm)
    as (rmark & digits & Hrow & Hr & Hdigits & ->).
  change (group_text 2 _) with row_ref in Hrow.
  change (group_text 1 _) with col_ref. subst row_ref.
  rewrite (row_number_digits _ _ Hdigits) in Hn.
  unfold plain_row in Hplain. rewrite Hdigits in Hplain.
  destruct (int digits) as [n'|] eqn:Hint; [|done]. injection Hn as ->.
  rewrite bind_returns, build_row_mapping_no_deletions.
  case_decide as Hin; [|done]. specialize (Hplain Hin).
  rewrite (str_int_writable n)
    by (eapply int_returns_writable; [apply Hr|done]).
  rewrite bind_returns.
  destruct Hr as (Hmark & Hne & Hd).
  destruct (int_of_run digits Hne Hd) as (u & Hu & Hshow & Hread).
  rewrite Hread in Hint. destruct (_ <=? _); [|done]. injection Hint as <-.
  rewrite str_of_int_of_uint, (uint_of_digits_plain digits u), Hshow by done.
  rewrite replace_same; [done|]. by destruct col_ref, rmark, digits.
Qed.

Section no_deletions.
Context {tables : UnicodeTables}.

(** C6, amended.  Under a mapping built with no row marked for deletion, a
    formula is returned unchanged when every extracted reference has a row
    number within the limit of [int] and, where that row is a row of the
    mapping, writes it without a leading zero. *)
Theorem adjust_no_deletions {V} (formula : str) (original_map : gmap Z V) :
  Forall (λ ref, ∃ n, row_number ref = Some n ∧
                      (n ∈ dom original_map → plain_row ref = true))
    (parse_cell_references formula) →
  adjust_formula_references formula
    (build_row_mapping_after_deletion original_map []) = Returns formula.
Proof.
  intros Hplain. unfold adjust_formula_references.
  destruct formula as [|c formula]; [done|].
  destruct (negb _); [done|].
  assert (Hrefs : Forall (λ ref,
            (∃ n, row_number ref = Some n ∧
                  (n ∈ dom original_map → plain_row ref = true)) ∧
            ∃ col_ref row_ref, ref = col_ref ++ row_ref ∧
                               reference_parts col_ref row_ref)
            (sort_by_len_desc (parse_cell_references (c :: formula)))).
  { rewrite sort_by_len_desc_perm. apply Forall_forall. intros ref Hin.
    split; [by eapply Forall_forall in Hplain|].
    by apply parse_cell_references_parts in Hin. }
  induction Hrefs
    as [|ref refs ((n & Hn & Hp) & col_ref & row_ref & -> & Hparts) _ IH];
    [done|].
  simpl. by rewrite (adjust_reference_no_deletions _ _ _ _ n), bind_returns.
Qed.
End no_deletions.

(** ** Rewriting: worked formulas *)

Lemma build_row_mapping_dom_eq {V W} (original_map : gmap Z V)
    (original_map' : gmap Z W) (deleted_rows : list Z) :
  dom original_map = dom original_map' →
  build_row_mapping_after_deletion original_map deleted_rows
  = build_row_mapping_after_deletion original_map' deleted_rows.
Proof.
  intros Hdom. unfold build_row_mapping_after_deletion, sorted_keys.
  by rewrite Hdom.
Qed.

Lemma dom_rows_upto n : dom (rows_upto n) = list_to_set (seqZ 1 n).
Proof.
  unfold rows_upto. rewrite dom_list_to_map_L. f_equal.
  rewrite <- list_fmap_compose. apply list_fmap_id.
Qed.

(** A reference to a retained row is replaced, wherever its text occurs. *)
Lemma adjust_reference_retained row_mapping new_formula
    cmark letters rmark digits n v :
  marked_run upper cmark letters → marked_run digit rmark digits →
  int digits = Returns n →
  row_mapping !! n = Some (Some v) →
  Z.of_nat (decimal_digits v) ≤ max_str_digits →
  adjust_reference row_mapping new_formula
    ((cmark ++ letters) ++ rmark ++ digits)
  = Returns (replace new_formula ((cmark ++ letters) ++ rmark ++ digits)
               ((cmark ++ letters) ++ rmark ++ str_of_int v)).
Proof.
  intros Hc Hr Hint Hlook Hv.
  assert (Hparts : reference_parts (cmark ++ letters) (rmark ++ digits))
    by (by exists cmark, letters, rmark, digits).
  pose proof (parts_match_whole _ _ Hparts) as Hm.
  destruct (adjust_reference_match row_mapping new_formula _ _ _ Hm)
    as (rmark' & digits' & Hrow & _ & Hdigits & ->).
  change (group_text 2 _) with (rmark ++ digits) in Hrow.
  change (group_text 1 _) with (cmark ++ letters).
  unfold row_digits in Hdigits. rewrite Hm in Hdigits.
  change (group_text 2 _) with (rmark ++ digits) in Hdigits.
  rewrite (strip_mark _ _ Hr) in Hdigits. injection Hdigits as <-.
  apply app_inv_tail in Hrow as <-.
  by rewrite Hint, bind_returns, Hlook, (str_int_writable v), bind_returns.
Qed.

(** ** Every occurrence is replaced *)

Lemma startswith_app s t prefix :
  (length prefix ≤ length s)%nat →
  startswith (s ++ t) prefix = startswith s prefix.
Proof.
  revert s. induction prefix as [|p prefix IH]; intros s Hlen; [done|].
  destruct s as [|c s]; simpl in *; [lia|].
  f_equal. apply IH. lia.
Qed.

Lemma startswith_longer s prefix :
  (length s < length prefix)%nat → startswith s prefix = false.
Proof.
  revert s. induction prefix as [|p prefix IH]; intros s Hlen; simpl in *;
    [lia|].
  destruct s as [|c s]; [done|]. simpl in Hlen.
  rewrite IH by lia. apply andb_false_r.
Qed.

Lemma startswith_prefix old rest : startswith (old ++ rest) old = true.
Proof.
  induction old as [|o old IH]; [done|]. simpl. by rewrite N.eqb_refl, IH.
Qed.

(** The text in front of the first occurrence is copied, the occurrence is
    replaced, and the search goes on behind it. *)
Lemma replace_from_piece old new piece rest :
  old ≠ [] → starts_no_occurrence old piece →
  replace_from old new 0 (piece ++ old ++ rest)
  = piece ++ new ++ replace_from old new 0 rest.
Proof.
  intros Hold. unfold starts_no_occurrence.
  induction piece as [|c piece IH]; intros Hfree.
  - destruct old as [|o old]; [done|].
    change ([] ++ (o :: old) ++ rest) with (o :: old ++ rest).
    cbn [replace_from].
    change (o :: old ++ rest) with ((o :: old) ++ rest).
    rewrite startswith_prefix, replace_from_skip. simpl.
    by rewrite Nat.sub_0_r, drop_app_length.
  - simpl in Hfree. apply orb_false_iff in Hfree as [Hhere Hlater].
    change ((c :: piece) ++ old ++ rest) with (c :: piece ++ old ++ rest).
    cbn [replace_from].
    assert (startswith (c :: piece ++ old ++ rest) old = false) as ->.
    { rewrite <- Hhere.
      rewrite <- (take_drop (length old - 1) old) at 1.
      rewrite <- (assoc_L (++)), (assoc_L (++) piece), app_comm_cons.
      apply startswith_app. simpl. rewrite length_app, length_take.
      destruct old; [done|]. simpl. lia. }
    simpl. f_equal. by apply IH.
Qed.

Lemma replace_from_free old new piece :
  old ≠ [] → starts_no_occurrence old piece →
  replace_from old new 0 piece = piece.
Proof.
  intros Hold. unfold starts_no_occurrence.
  induction piece as [|c piece IH]; intros Hfree; [done|].
  simpl in Hfree. apply orb_false_iff in Hfree as [Hhere Hlater].
  cbn [replace_from].
  assert (startswith (c :: piece) old = false) as ->.
  { destruct (decide (length old ≤ length (c :: piece))%nat) as [Hle|Hgt].
    - rewrite <- Hhere. symmetry.
      by apply (startswith_app (c :: piece)).
    - apply startswith_longer. lia. }
  f_equal. by apply IH.
Qed.

Lemma replace_from_occurrences old new first pieces :
  old ≠ [] → Forall (starts_no_occurrence old) (first :: pieces) →
  replace_from old new 0 (occurrences old first pieces)
  = occurrences new first pieces.
Proof.
  intros Hold. revert first. unfold occurrences.
  induction pieces as [|piece pieces IH]; intros first Hfree.
  - simpl. rewrite !app_nil_r. apply replace_from_free; [done|].
    by apply Forall_cons in Hfree as [? _].
  - apply Forall_cons in Hfree as [Hfirst Hfree].
    rewrite !fmap_cons. cbn [concat]. rewrite <- !(assoc_L (++)).
    rewrite replace_from_piece by done. do 2 f_equal. by apply IH.
Qed.

(** [s.replace(old, new)] reaches every occurrence of [old]. *)
Lemma replace_occurrences old new first pieces :
  old ≠ [] → Forall (starts_no_occurrence old) (first :: pieces) →
  replace (occurrences old first pieces) old new
  = occurrences new first pieces.
Proof.
  intros Hold Hfree. unfold replace. destruct old; [done|].
  by apply replace_from_occurrences.
Qed.

Lemma replace_from_absent old new s :
  contains s old = false → replace_from old new 0 s = s.
Proof.
  induction s as [|c s IH]; [done|]. cbn [contains replace_from].
  intros [-> Hlater]%orb_false_iff. f_equal. by apply IH.
Qed.

(** A text in which [old] does not occur is left as it is. *)
Lemma replace_absent s old new :
  old ≠ [] → contains s old = false → replace s old new = s.
Proof.
  intros Hold Habsent. unfold replace. destruct old; [done|].
  by apply replace_from_absent.
Qed.

Lemma sort_by_len_desc_replicate k (ref : str) :
  sort_by_len_desc (replicate k ref) = replicate k ref.
Proof.
  unfold sort_by_len_desc. induction k as [|k IH]; [done|].
  cbn [replicate foldr]. rewrite IH. destruct k; [done|].
  cbn [replicate insert_by_len]. by rewrite Nat.leb_refl.
Qed.

Section worked_formulas.
Context {tables : UnicodeTables}.

Lemma adjust_formula_references_formula formula row_mapping :
  startswith formula (py "=") = true →
  adjust_formula_references formula row_mapping
  = for_each (adjust_reference row_mapping) formula
      (sort_by_len_desc (parse_cell_references formula)).
Proof.
  unfold adjust_formula_references. destruct formula; [done|]. by intros ->.
Qed.

(** C3.  With the rows 2 to 9 of the rows 1..100 deleted, row 1 is mapped
    to 1, row 10 to 2 and row 100 to 92, and the formula [=A1+A10+A100] is
    rewritten to [=A1+A2+A92]. *)
Theorem longest_reference_first {V} (original_map : gmap Z V) :
  dom original_map = list_to_set (seqZ 1 100) →
  let row_mapping :=
    build_row_mapping_after_deletion original_map [2; 3; 4; 5; 6; 7; 8; 9] in
  row_mapping !! 1 = Some (Some 1) ∧
  row_mapping !! 10 = Some (Some 2) ∧
  row_mapping !! 100 = Some (Some 92) ∧
  adjust_formula_references (py "=A1+A10+A100") row_mapping
  = Returns (py "=A1+A2+A92").
Proof.
  intros Hdom.
  rewrite (build_row_mapping_dom_eq original_map (rows_upto 100))
    by by rewrite dom_rows_upto.
  vm_compute. auto.
Qed.

(** C8.  The substitution reaches every occurrence of the reference.  In a
    text that holds the reference in front of every one of any number of
    pieces, in none of which an occurrence starts, the loop body replaces
    each one by the reference to the new row; and so does the rewriter on
    such a formula, when the reference is all that the pattern extracts from
    it, however often, and does not occur in the rewritten text.  And under
    a mapping that sends row 10 to row 7 the formula [=A10*A10+A10] is
    rewritten to [=A7*A7+A7]. *)
Theorem every_occurrence_rewritten (row_mapping : gmap Z (option Z)) :
  (∀ (cmark letters rmark digits first : str) (pieces : list str) (n v : Z),
     marked_run upper cmark letters → marked_run digit rmark digits →
     int digits = Returns n →
     row_mapping !! n = Some (Some v) →
     Z.of_nat (decimal_digits v) ≤ max_str_digits →
     let ref := (cmark ++ letters) ++ rmark ++ digits in
     let new_ref := (cmark ++ letters) ++ rmark ++ str_of_int v in
     let formula := occurrences ref first pieces in
     let new_formula := occurrences new_ref first pieces in
     Forall (starts_no_occurrence ref) (first :: pieces) →
     adjust_reference row_mapping formula ref = Returns new_formula ∧
     ∀ extractions : nat,
       startswith formula (py "=") = true →
       parse_cell_references formula = replicate (S extractions) ref →
       contains new_formula ref = false →
       adjust_formula_references formula row_mapping = Returns new_formula) ∧
  (row_mapping !! 10 = Some (Some 7) →
   adjust_formula_references (py "=A10*A10+A10") row_mapping
   = Returns (py "=A7*A7+A7")).
Proof.
  split.
  - intros cmark letters rmark digits first pieces n v Hc Hr Hint Hlook Hv
      ref new_ref formula new_formula Hfree.
    assert (Hne : ref ≠ []).
    { destruct Hr as (_ & Hne & _). unfold ref.
      by destruct cmark, letters, rmark, digits. }
    assert (Hstep : ∀ text,
      adjust_reference row_mapping text ref
      = Returns (replace text ref new_ref))
      by (intros text; by apply (adjust_reference_retained _ _ _ _ _ _ n v)).
    assert (Hall : replace formula ref new_ref = new_formula)
      by (by apply replace_occurrences).
    split; [by rewrite Hstep, Hall|].
    intros extractions Hstart Hparse Habsent.
    rewrite adjust_formula_references_formula, Hparse by done.
    rewrite sort_by_len_desc_replicate. cbn [replicate for_each].
    rewrite Hstep, Hall, bind_returns. clear Hparse.
    induction extractions as [|k IH]; [done|].
    cbn [replicate for_each].
    by rewrite Hstep, replace_absent, bind_returns.
  - intros Hrow.
    assert (Hstep : ∀ new_formula,
      adjust_reference row_mapping new_formula (py "A10")
      = Returns (replace new_formula (py "A10") (py "A7"))).
    { intros new_formula.
      apply (adjust_reference_retained _ _ [] (py "A") [] (py "10") 10 7);
        [| |done|done|done];
        (split; [by left|split; [done|by repeat constructor]]). }
    assert (sort_by_len_desc (parse_cell_references (py "=A10*A10+A10"))
            = [py "A10"; py "A10"; py "A10"]) as Hrefs by (by vm_compute).
    rewrite adjust_formula_references_formula, Hrefs by done.
    cbn [for_each]. repeat (rewrite Hstep, bind_returns). by vm_compute.
Qed.

(** C2 on the code.  A formula that refers only to another sheet is
    rewritten with the mapping in use all the same. *)
Theorem other_sheet_reference_rewritten :
  let row_mapping :=
    build_row_mapping_after_deletion (rows_upto 10) [2; 3; 4] in
  row_mapping !! 10 = Some (Some 7) ∧
  parse_cell_references (py "=Other!A10") = [py "A10"] ∧
  adjust_formula_references (py "=Other!A10") row_mapping
  = Returns (py "=Other!A7").
Proof. by vm_compute. Qed.

(** C5 on the code.  Row 120 is deleted and row 12 is mapped to 11;
    replacing the text [A12] changes the reference [A120] to the deleted
    row as well. *)
Theorem deleted_row_reference_changed :
  let row_mapping :=
    build_row_mapping_after_deletion (rows_upto 120) [5; 120] in
  row_mapping !! 120 = Some None ∧
  row_mapping !! 12 = Some (Some 11) ∧
  parse_cell_references (py "=A12+A120") = [py "A12"; py "A120"] ∧
  adjust_formula_references (py "=A12+A120") row_mapping
  = Returns (py "=A11+A110").
Proof. by vm_compute. Qed.

Lemma leading_zero_dropped :
  adjust_formula_references (py "=A01")
    (build_row_mapping_after_deletion (rows_upto 1) [])
  = Returns (py "=A1").
Proof. by vm_compute. Qed.
End worked_formulas.

(** ** Updating the formulas of a worksheet *)

Lemma changed_in_row_cons c c' row row' :
  changed_in_row (c :: row) (c' :: row')
  = ((if decide (cell_value c ≠ cell_value c') then 1 else 0)
     + changed_in_row row row')%nat.
Proof.
  unfold changed_in_row. simpl. rewrite filter_cons. simpl.
  by destruct (decide (cell_value c ≠ cell_value c')).
Qed.

Section update_formulas.
Context {tables : UnicodeTables}.

Lemma cell_step_same row_mapping row : Forall2 (cell_step row_mapping) row row.
Proof. induction row; constructor; [by left|done]. Qed.

Lemma row_step_same row_mapping rows :
  Forall2 (Forall2 (cell_step row_mapping)) rows rows.
Proof. induction rows; constructor; [apply cell_step_same|done]. Qed.

Lemma update_cell_spec row_mapping updated_count c :
  ∃ c' result,
    update_cell row_mapping updated_count c = (c', result) ∧
    cell_step row_mapping c c' ∧
    (∀ n, result = Returns n →
       cell_updated row_mapping c c' ∧
       n = updated_count
           + (if decide (cell_value c ≠ cell_value c') then 1 else 0)) ∧
    (cell_adjustable row_mapping c → ∃ n, result = Returns n).
Proof.
  assert (Hsame : (∀ c'', ¬ cell_rewritten row_mapping c c'') →
    ∃ c' result,
      (c, Returns updated_count) = (c', result) ∧
      cell_step row_mapping c c' ∧
      (∀ n, result = Returns n →
         cell_updated row_mapping c c' ∧
         n = updated_count
             + (if decide (cell_value c ≠ cell_value c') then 1 else 0)) ∧
      (cell_adjustable row_mapping c → ∃ n, result = Returns n)).
  { intros Hnot. exists c, (Returns updated_count).
    split; [done|]. split; [by left|]. split; [|eauto].
    intros n [= <-]. split; [by right|].
    rewrite decide_False by (by intros ?). lia. }
  unfold update_cell. case_bool_decide as Hf.
  2:{ apply Hsame. by intros c'' [? _]. }
  destruct (cell_value c) as [|original_formula| | |] eqn:Hv;
    try (apply Hsame; intros c'' (_ & ? & ? & ? & _); congruence).
  destruct original_formula as [|x original_formula].
  { apply Hsame. intros c'' (_ & f & new_formula & Hval & Hadj & Hnew & _).
    rewrite Hv in Hval. injection Hval as <-. simpl in Hadj. congruence. }
  destruct (adjust_formula_references (x :: original_formula) row_mapping)
    as [new_formula|e] eqn:Hadj.
  - case_bool_decide as Hnew.
    + exists (Cell (data_type c) (VStr new_formula)),
        (Returns (updated_count + 1)).
      assert (Hrew : cell_rewritten row_mapping c
                       (Cell (data_type c) (VStr new_formula))).
      { split; [done|]. by exists (x :: original_formula), new_formula. }
      split; [done|]. split; [by right|]. split; [|eauto].
      intros n [= <-]. split; [by left|].
      simpl. by rewrite decide_True by congruence.
    + apply Hsame.
      intros c'' (_ & f & new_formula' & Hval & Hadj' & Hnew' & _).
      rewrite Hv in Hval. injection Hval as <-. congruence.
  - exists c, (Raises e). split; [done|]. split; [by left|].
    split; [done|]. intros Hadjustable.
    destruct (Hadjustable Hf _ Hv) as [new_formula Hret]. congruence.
Qed.

Lemma update_row_spec row_mapping row : ∀ updated_count,
  ∃ row' result,
    update_row row_mapping updated_count row = (row', result) ∧
    Forall2 (cell_step row_mapping) row row' ∧
    (∀ n, result = Returns n →
       Forall2 (cell_updated row_mapping) row row' ∧
       n = updated_count + Z.of_nat (changed_in_row row row')) ∧
    (Forall (cell_adjustable row_mapping) row → ∃ n, result = Returns n).
Proof.
  induction row as [|c row IH]; intros updated_count; simpl.
  - exists [], (Returns updated_count). split; [done|]. split; [constructor|].
    split; [|eauto]. intros n [= <-]. split; [constructor|].
    unfold changed_in_row. simpl. lia.
  - destruct (update_cell_spec row_mapping updated_count c)
      as (c' & result & -> & Hc & Hret & Hadj).
    destruct result as [n|e].
    + destruct (Hret n eq_refl) as [Hup ->].
      destruct (IH (updated_count
                    + (if decide (cell_value c ≠ cell_value c') then 1 else 0)))
        as (row' & result' & -> & Hrow & Hret' & Hadj').
      exists (c' :: row'), result'. split; [done|].
      split; [by constructor|]. split.
      * intros n Hn. destruct (Hret' n Hn) as [Hups ->].
        split; [by constructor|].
        rewrite changed_in_row_cons. case_decide; lia.
      * intros [_ Hrest]%Forall_cons. by apply Hadj'.
    + exists (c' :: row), (Raises e). split; [done|].
      split; [constructor; [done|apply cell_step_same]|].
      split; [done|]. intros [Hfirst _]%Forall_cons.
      destruct (Hadj Hfirst) as [n Hn]. congruence.
Qed.

Lemma update_rows_spec row_mapping rows : ∀ updated_count,
  ∃ rows' result,
    update_rows row_mapping updated_count rows = (rows', result) ∧
    Forall2 (Forall2 (cell_step row_mapping)) rows rows' ∧
    (∀ n, result = Returns n →
       Forall2 (Forall2 (cell_updated row_mapping)) rows rows' ∧
       n = updated_count + Z.of_nat (changed_cells rows rows')) ∧
    (Forall (Forall (cell_adjustable row_mapping)) rows →
     ∃ n, result = Returns n).
Proof.
  induction rows as [|row rows IH]; intros updated_count; simpl.
  - exists [], (Returns updated_count). split; [done|]. split; [constructor|].
    split; [|eauto]. intros n [= <-]. split; [constructor|].
    unfold changed_cells. simpl. lia.
  - destruct (update_row_spec row_mapping row updated_count)
      as (row' & result & -> & Hrow & Hret & Hadj).
    destruct result as [n|e].
    + destruct (Hret n eq_refl) as [Hup ->].
      destruct (IH (updated_count + Z.of_nat (changed_in_row row row')))
        as (rows' & result' & -> & Hrows & Hret' & Hadj').
      exists (row' :: rows'), result'. split; [done|].
      split; [by constructor|]. split.
      * intros n Hn. destruct (Hret' n Hn) as [Hups ->].
        split; [by constructor|].
        unfold changed_cells. simpl. fold (changed_cells rows rows'). lia.
      * intros [_ Hrest]%Forall_cons. by apply Hadj'.
    + exists (row' :: rows), (Raises e). split; [done|].
      split; [constructor; [done|apply row_step_same]|].
      split; [done|]. intros [Hfirst _]%Forall_cons.
      destruct (Hadj Hfirst) as [n Hn]. congruence.
Qed.

(** C10.  [update_formulas_in_sheet] leaves a cell as it is unless the cell
    has data type [f] and its adjusted formula differs from the original
    one, in which case the cell holds the adjusted formula, also when an
    exception ends the call.  When the call returns, every such cell holds
    its adjusted formula and the count returned is the number of cells whose
    value changed; and it returns when no formula of the worksheet makes
    the rewriter raise. *)
Theorem update_formulas_in_sheet_frame (worksheet : list (list cell))
    (row_mapping : gmap Z (option Z)) :
  ∃ worksheet' result,
    update_formulas_in_sheet worksheet row_mapping = (worksheet', result) ∧
    Forall2 (Forall2 (cell_step row_mapping)) worksheet worksheet' ∧
    (∀ updated_count, result = Returns updated_count →
       Forall2 (Forall2 (cell_updated row_mapping)) worksheet worksheet' ∧
       updated_count = Z.of_nat (changed_cells worksheet worksheet')) ∧
    (Forall (Forall (cell_adjustable row_mapping)) worksheet →
     ∃ updated_count, result = Returns updated_count).
Proof.
  destruct (update_rows_spec row_mapping worksheet 0)
    as (rows' & result & Hret & Hstep & Hcount & Hadj).
  exists rows', result. split; [done|]. split; [done|]. split; [|done].
  intros updated_count Hn. destruct (Hcount _ Hn) as [Hup ->].
  split; [done|lia].
Qed.
End update_formulas.

(** ** The theorems at concrete inputs *)

(** C1 at the rows 1..5 with row 3 deleted. *)
Lemma build_row_mapping_spec_witness :
  (3 ∈ dom (rows_upto 5) ∧ 3 ∈ [3] ∧
   build_row_mapping_after_deletion (rows_upto 5) [3] !! 3 = Some None) ∧
  (4 ∈ dom (rows_upto 5) ∧ (4 ∉ [3]) ∧
   build_row_mapping_after_deletion (rows_upto 5) [3] !! 4 = Some (Some 3)).
Proof.
  destruct (build_row_mapping_spec (rows_upto 5) [3]) as (_ & Hdel & Hkeep).
  assert (H3 : 3 ∈ dom (rows_upto 5)) by (by vm_compute).
  assert (H4 : 4 ∈ dom (rows_upto 5)) by (by vm_compute).
  assert (H3D : 3 ∈ [3]) by (apply list_elem_of_singleton; reflexivity).
  assert (H4D : 4 ∉ [3]) by (intros Hin%list_elem_of_singleton; lia).
  split.
  - split; [exact H3|]. split; [exact H3D|]. exact (Hdel 3 H3 H3D).
  - split; [exact H4|]. split; [exact H4D|]. exact (Hkeep 4 H4 H4D).
Defined.

(** C4 at the rows 1..5 with row 3 deleted, for the rows 2 and 4. *)
Lemma row_mapping_strictly_increasing_witness :
  dom (rows_upto 5) = list_to_set (seqZ 1 (Z.of_nat 5)) ∧
  1 ≤ 2 ≤ Z.of_nat 5 ∧ 1 ≤ 4 ≤ Z.of_nat 5 ∧ (2 ∉ [3]) ∧ (4 ∉ [3]) ∧ 2 < 4 ∧
  ∃ a' b',
    build_row_mapping_after_deletion (rows_upto 5) [3] !! 2 = Some (Some a') ∧
    build_row_mapping_after_deletion (rows_upto 5) [3] !! 4 = Some (Some b') ∧
    a' < b'.
Proof.
  assert (Hdom : dom (rows_upto 5) = list_to_set (seqZ 1 (Z.of_nat 5)))
    by apply dom_rows_upto.
  assert (H2 : 1 ≤ 2 ≤ Z.of_nat 5) by (simpl; lia).
  assert (H4 : 1 ≤ 4 ≤ Z.of_nat 5) by (simpl; lia).
  assert (H2D : 2 ∉ [3]) by (intros Hin%list_elem_of_singleton; lia).
  assert (H4D : 4 ∉ [3]) by (intros Hin%list_elem_of_singleton; lia).
  assert (Hlt : 2 < 4) by lia.
  repeat (split; [assumption|]).
  exact (row_mapping_strictly_increasing (rows_upto 5) 5 [3] 2 4
           Hdom H2 H4 H2D H4D Hlt).
Defined.

(** C9 at the rows 1..5 with row 3 deleted. *)
Lemma compaction_range_witness :
  dom (rows_upto 5) = list_to_set (seqZ 1 (Z.of_nat 5)) ∧
  ∀ v, (∃ r, build_row_mapping_after_deletion (rows_upto 5) [3] !! r
               = Some (Some v))
       ↔ 1 ≤ v ≤ Z.of_nat 5
                 - Z.of_nat (size (filter (.∈ [3]) (dom (rows_upto 5)))).
Proof.
  assert (Hdom : dom (rows_upto 5) = list_to_set (seqZ 1 (Z.of_nat 5)))
    by apply dom_rows_upto.
  split; [exact Hdom|].
  exact (compaction_range (rows_upto 5) 5 [3] Hdom).
Defined.

(** C3 at a worksheet of 100 rows. *)
Lemma longest_reference_first_witness :
  dom (rows_upto 100) = list_to_set (seqZ 1 100) ∧
  adjust_formula_references (tables := ascii_only) (py "=A1+A10+A100")
    (build_row_mapping_after_deletion (rows_upto 100) [2; 3; 4; 5; 6; 7; 8; 9])
  = Returns (py "=A1+A2+A92").
Proof.
  assert (Hdom : dom (rows_upto 100) = list_to_set (seqZ 1 100))
    by apply dom_rows_upto.
  split; [exact Hdom|].
  exact (proj2 (proj2 (proj2
    (longest_reference_first (tables := ascii_only)
       (rows_upto 100) Hdom)))).
Defined.

(** C8 at the mapping of the rows 1..10 with rows 2, 3 and 4 deleted: the
    loop body on the three occurrences of [A10], the rewriter on the
    formula that holds them, and the instance of the claim. *)
Lemma every_occurrence_rewritten_witness :
  marked_run upper [] (py "A") ∧ marked_run digit [] (py "10") ∧
  int (py "10") = Returns 10 ∧
  build_row_mapping_after_deletion (rows_upto 10) [2; 3; 4] !! 10
    = Some (Some 7) ∧
  Z.of_nat (decimal_digits 7) ≤ max_str_digits ∧
  Forall (starts_no_occurrence (py "A10")) [py "="; py "*"; py "+"; []] ∧
  startswith (py "=A10*A10+A10") (py "=") = true ∧
  parse_cell_references (tables := ascii_only) (py "=A10*A10+A10")
    = replicate 3 (py "A10") ∧
  contains (py "=A7*A7+A7") (py "A10") = false ∧
  adjust_reference
    (build_row_mapping_after_deletion (rows_upto 10) [2; 3; 4])
    (py "=A10*A10+A10") (py "A10")
  = Returns (py "=A7*A7+A7") ∧
  adjust_formula_references (tables := ascii_only) (py "=A10*A10+A10")
    (build_row_mapping_after_deletion (rows_upto 10) [2; 3; 4])
  = Returns (py "=A7*A7+A7").
Proof.
  assert (Hcol : marked_run upper [] (py "A"))
    by (split; [by left|split; [done|by repeat constructor]]).
  assert (Hdigits : marked_run digit [] (py "10"))
    by (split; [by left|split; [done|by repeat constructor]]).
  assert (Hint : int (py "10") = Returns 10) by reflexivity.
  assert (Hrow : build_row_mapping_after_deletion (rows_upto 10) [2; 3; 4] !! 10
                 = Some (Some 7)) by (vm_compute; reflexivity).
  assert (Hnew : Z.of_nat (decimal_digits 7) ≤ max_str_digits)
    by (apply Z.leb_le; reflexivity).
  assert (Hfree : Forall (starts_no_occurrence (py "A10"))
                    [py "="; py "*"; py "+"; []])
    by (repeat constructor).
  assert (Hstart : startswith (py "=A10*A10+A10") (py "=") = true)
    by reflexivity.
  assert (Hparse : parse_cell_references (tables := ascii_only)
                     (py "=A10*A10+A10") = replicate 3 (py "A10"))
    by (vm_compute; reflexivity).
  assert (Habsent : contains (py "=A7*A7+A7") (py "A10") = false)
    by reflexivity.
  split; [exact Hcol|]. split; [exact Hdigits|]. split; [exact Hint|].
  split; [exact Hrow|]. split; [exact Hnew|]. split; [exact Hfree|].
  split; [exact Hstart|]. split; [exact Hparse|]. split; [exact Habsent|].
  split.
  - exact (proj1 (proj1 (every_occurrence_rewritten (tables := ascii_only) _)
             [] (py "A") [] (py "10") (py "=") [py "*"; py "+"; []] 10 7
             Hcol Hdigits Hint Hrow Hnew Hfree)).
  - exact (proj2 (proj1 (every_occurrence_rewritten (tables := ascii_only) _)
             [] (py "A") [] (py "10") (py "=") [py "*"; py "+"; []] 10 7
             Hcol Hdigits Hint Hrow Hnew Hfree) 2%nat Hstart Hparse Habsent).
Defined.

(** C7, amended, at a formula with two references, and at a string that is
    not a formula. *)
Lemma adjust_formula_references_total_witness :
  Forall (within_limits
            (build_row_mapping_after_deletion (rows_upto 10) [2; 3; 4]))
    (parse_cell_references (tables := ascii_only) (py "=A10+B3")) ∧
  (∃ result,
     adjust_formula_references (tables := ascii_only) (py "=A10+B3")
       (build_row_mapping_after_deletion (rows_upto 10) [2; 3; 4])
     = Returns result) ∧
  startswith (py "A10") (py "=") = false ∧
  adjust_formula_references (tables := ascii_only) (py "A10")
    (build_row_mapping_after_deletion (rows_upto 10) [2; 3; 4])
  = Returns (py "A10").
Proof.
  assert (Hlimits : Forall (within_limits
            (build_row_mapping_after_deletion (rows_upto 10) [2; 3; 4]))
    (parse_cell_references (tables := ascii_only) (py "=A10+B3"))).
  { change (parse_cell_references (tables := ascii_only) (py "=A10+B3"))
      with [py "A10"; py "B3"].
    constructor; [|constructor; [|constructor]].
    - exists 10. split; [reflexivity|]. intros v Hv.
      vm_compute in Hv. injection Hv as <-. apply Z.leb_le. reflexivity.
    - exists 3. split; [reflexivity|]. intros v Hv.
      vm_compute in Hv. discriminate Hv. }
  assert (Hstart : startswith (py "A10") (py "=") = false) by reflexivity.
  split; [exact Hlimits|]. split.
  - exact (proj1 (adjust_formula_references_total (tables := ascii_only)
                    (py "=A10+B3") _) Hlimits).
  - split; [exact Hstart|].
    exact (proj2 (adjust_formula_references_total (tables := ascii_only)
                    (py "A10") _) Hstart).
Defined.

(** C7 as stated fails: on a reference whose row number has 4301 digits
    [int] raises [ValueError], and the rewriter with it. *)
Lemma adjust_formula_references_total_counterexample :
  ¬ ∃ result,
      adjust_formula_references (tables := ascii_only)
        (py "=A" ++ replicate 4301 49%N)
        (build_row_mapping_after_deletion (rows_upto 10) [2; 3; 4])
      = Returns result.
Proof.
  assert (adjust_formula_references (tables := ascii_only)
            (py "=A" ++ replicate 4301 49%N)
            (build_row_mapping_after_deletion (rows_upto 10) [2; 3; 4])
          = Raises ValueError) as -> by (vm_compute; reflexivity).
  intros [result Hresult]. discriminate Hresult.
Qed.

(** C6, amended, at a formula with a relative and an absolute reference and
    a reference with leading zeros to a row that the mapping does not
    hold. *)
Lemma adjust_no_deletions_witness :
  Forall (λ ref, ∃ n, row_number ref = Some n ∧
                      (n ∈ dom (rows_upto 10) → plain_row ref = true))
    (parse_cell_references (tables := ascii_only) (py "=A1+$B$10+C0050")) ∧
  adjust_formula_references (tables := ascii_only) (py "=A1+$B$10+C0050")
    (build_row_mapping_after_deletion (rows_upto 10) [])
  = Returns (py "=A1+$B$10+C0050").
Proof.
  assert (Hplain : Forall (λ ref, ∃ n, row_number ref = Some n ∧
                      (n ∈ dom (rows_upto 10) → plain_row ref = true))
            (parse_cell_references (tables := ascii_only)
               (py "=A1+$B$10+C0050"))).
  { change (parse_cell_references (tables := ascii_only)
              (py "=A1+$B$10+C0050"))
      with [py "A1"; py "$B$10"; py "C0050"].
    constructor; [|constructor; [|constructor; [|constructor]]].
    - exists 1. split; reflexivity.
    - exists 10. split; reflexivity.
    - exists 50. split; [reflexivity|]. intros Hin.
      rewrite dom_rows_upto in Hin.
      apply elem_of_list_to_set, elem_of_seqZ in Hin. lia. }
  split; [exact Hplain|].
  exact (adjust_no_deletions (tables := ascii_only) _ (rows_upto 10) Hplain).
Defined.

(** C6 as stated fails: with no row deleted, the formula [=A01] comes back
    as [=A1]. *)
Lemma adjust_no_deletions_counterexample :
  adjust_formula_references (tables := ascii_only) (py "=A01")
    (build_row_mapping_after_deletion (rows_upto 1) [])
  ≠ Returns (py "=A01").
Proof.
  rewrite (leading_zero_dropped (tables := ascii_only)).
  intros Heq. discriminate Heq.
Qed.

(** C10 at the worksheet [regions] with its row 2 deleted: the formula of
    its last row is the one cell that changes. *)
Lemma update_formulas_in_sheet_frame_witness :
  Forall (Forall (cell_adjustable (tables := ascii_only)
                    (build_row_mapping_after_deletion (rows_upto 4) [2])))
    regions ∧
  ∃ worksheet' result,
    update_formulas_in_sheet (tables := ascii_only) regions
      (build_row_mapping_after_deletion (rows_upto 4) [2])
    = (worksheet', result) ∧
    Forall2 (Forall2 (cell_step (tables := ascii_only)
                        (build_row_mapping_after_deletion (rows_upto 4) [2])))
      regions worksheet' ∧
    (∀ updated_count, result = Returns updated_count →
       Forall2 (Forall2 (cell_updated (tables := ascii_only)
                  (build_row_mapping_after_deletion (rows_upto 4) [2])))
         regions worksheet' ∧
       updated_count = Z.of_nat (changed_cells regions worksheet')) ∧
    (Forall (Forall (cell_adjustable (tables := ascii_only)
                       (build_row_mapping_after_deletion (rows_upto 4) [2])))
       regions →
     ∃ updated_count, result = Returns updated_count).
Proof.
  assert (Hadj : Forall (Forall (cell_adjustable (tables := ascii_only)
                    (build_row_mapping_after_deletion (rows_upto 4) [2])))
            regions).
  { repeat (constructor; [repeat constructor|]); [..|constructor];
      try (intros Hf; discriminate Hf).
    intros _ formula Hformula. injection Hformula as <-.
    eexists. vm_compute. reflexivity. }
  split; [exact Hadj|].
  exact (update_formulas_in_sheet_frame (tables := ascii_only) regions
           (build_row_mapping_after_deletion (rows_upto 4) [2])).
Defined.

(** ** More on the row mapper *)

(** X1.  Only the rows of the input that are marked for deletion matter:
    two lists of deleted rows that mark the same rows of the input (in any
    order, with or without repetitions or rows that the input does not have)
    give the same mapping. *)
Theorem build_row_mapping_deleted_set {V} (original_map : gmap Z V)
    (deleted_rows deleted_rows' : list Z) :
  (∀ r, r ∈ dom original_map → (r ∈ deleted_rows ↔ r ∈ deleted_rows')) →
  build_row_mapping_after_deletion original_map deleted_rows
  = build_row_mapping_after_deletion original_map deleted_rows'.
Proof.
  intros Hsame. apply map_eq. intros r.
  destruct (decide (r ∈ dom original_map)) as [Hr|Hr].
  - rewrite !build_row_mapping_lookup by done.
    rewrite (bool_decide_ext _ _ (Hsame r Hr)).
    assert (deleted_below original_map deleted_rows r
            = deleted_below original_map deleted_rows' r) as ->; [|done].
    unfold deleted_below. f_equal. apply set_eq. intros k.
    rewrite !elem_of_filter. specialize (Hsame k). tauto.
  - by rewrite !build_row_mapping_outside.
Qed.

Lemma build_row_mapping_retained {V} (original_map : gmap Z V)
    (deleted_rows : list Z) r v :
  build_row_mapping_after_deletion original_map deleted_rows !! r
    = Some (Some v) →
  r ∈ dom original_map ∧ (r ∉ deleted_rows) ∧
  v = r - Z.of_nat (deleted_below original_map deleted_rows r).
Proof.
  intros Hlook. destruct (decide (r ∈ dom original_map)) as [Hr|Hr].
  - rewrite build_row_mapping_lookup in Hlook by done.
    case_bool_decide; [done|]. by simplify_eq.
  - by rewrite build_row_mapping_outside in Hlook.
Qed.

(** X2.  A retained row never moves down and never moves up by more than
    the number of deleted rows of the input; where the rows of the input are
    numbered from 1, so are the new rows. *)
Theorem retained_row_bounds {V} (original_map : gmap Z V)
    (deleted_rows : list Z) (r v : Z) :
  build_row_mapping_after_deletion original_map deleted_rows !! r
    = Some (Some v) →
  r - Z.of_nat (size (filter (.∈ deleted_rows) (dom original_map))) ≤ v ≤ r ∧
  ((∀ k, k ∈ dom original_map → 1 ≤ k) → 1 ≤ v).
Proof.
  intros (Hr & _ & ->)%build_row_mapping_retained. unfold deleted_below.
  set (B := filter (λ k, k ∈ deleted_rows ∧ k < r) (dom original_map)).
  split.
  - assert (size B ≤ size (filter (.∈ deleted_rows) (dom original_map)))%nat.
    { apply subseteq_size. intros k. unfold B. rewrite !elem_of_filter. tauto. }
    lia.
  - intros Hpos.
    assert (size B ≤ size (list_to_set (seqZ 1 (r - 1)) : gset Z))%nat as Hle.
    { apply subseteq_size. intros k. unfold B.
      rewrite elem_of_filter, elem_of_list_to_set, elem_of_seqZ.
      intros [[_ ?] ?%Hpos]. lia. }
    rewrite size_list_to_set, length_seqZ in Hle by apply NoDup_seqZ.
    specialize (Hpos r Hr). lia.
Qed.

Lemma build_row_mapping_below_deletions {V} (original_map : gmap Z V)
    (deleted_rows : list Z) (r : Z) :
  r ∈ dom original_map →
  (∀ d, d ∈ deleted_rows → d ∈ dom original_map → r < d) →
  build_row_mapping_after_deletion original_map deleted_rows !! r
    = Some (Some r).
Proof.
  intros Hr Hbelow. rewrite build_row_mapping_lookup by done.
  rewrite bool_decide_eq_false_2.
  2:{ intros HD. specialize (Hbelow r HD Hr). lia. }
  assert (deleted_below original_map deleted_rows r = 0%nat) as ->.
  { unfold deleted_below. apply size_empty_iff. intros k.
    rewrite elem_of_filter. split; [|by intros ?%not_elem_of_empty].
    intros [[HD Hlt] Hk]. specialize (Hbelow k HD Hk). lia. }
  do 2 f_equal. lia.
Qed.

(** X3.  A row of the input that lies below every deleted row of the input
    keeps its number. *)
Theorem rows_before_first_deletion {V} (original_map : gmap Z V)
    (deleted_rows : list Z) (r : Z) :
  r ∈ dom original_map →
  (∀ d, d ∈ deleted_rows → d ∈ dom original_map → r < d) →
  build_row_mapping_after_deletion original_map deleted_rows !! r
    = Some (Some r).
Proof. apply build_row_mapping_below_deletions. Qed.

(** ** [create_row_mapping] *)

Section create_row_mapping.
Context (object_text : nat → str).

Lemma foldl_create_row_mapping (worksheet : list (list cell)) :
  ∀ (m0 : gmap Z (list (list N))) i0 r,
  (foldl (λ '(row_content_map, row_idx) row,
            (<[row_idx := cell_text object_text <$> row]> row_content_map,
             row_idx + 1))
     (m0, i0) worksheet).1 !! r
  = if decide (i0 ≤ r < i0 + Z.of_nat (length worksheet))
    then (fmap (cell_text object_text)) <$> (worksheet !! Z.to_nat (r - i0))
    else m0 !! r.
Proof.
  induction worksheet as [|row ws IH]; intros m0 i0 r; simpl.
  - rewrite decide_False by lia. done.
  - rewrite IH. case_decide as Hin.
    + rewrite decide_True by lia.
      replace (Z.to_nat (r - i0)) with (S (Z.to_nat (r - (i0 + 1)))) by lia.
      done.
    + case_decide as Hin'.
      * assert (r = i0) as -> by lia. rewrite lookup_insert_eq.
        by replace (Z.to_nat (i0 - i0)) with 0%nat by lia.
      * rewrite lookup_insert_ne by lia. done.
Qed.

Lemma dom_create_row_mapping (worksheet : list (list cell)) :
  dom (create_row_mapping object_text worksheet)
    = list_to_set (seqZ 1 (Z.of_nat (length worksheet))).
Proof.
  unfold create_row_mapping. apply set_eq. intros r.
  rewrite elem_of_dom, foldl_create_row_mapping, elem_of_list_to_set,
    elem_of_seqZ.
  case_decide as Hin.
  - split; [lia|]. intros _.
    destruct (lookup_lt_is_Some_2 worksheet (Z.to_nat (r - 1))) as [row ->];
      [lia|]. by eexists.
  - rewrite lookup_empty. split; [by intros [??]|lia].
Qed.

(** X4.  The keys of the dict that [create_row_mapping] builds are the row
    numbers 1 to the number of rows, and the entry of a row holds the texts
    of its cells. *)
Theorem create_row_mapping_rows (worksheet : list (list cell)) :
  dom (create_row_mapping object_text worksheet)
    = list_to_set (seqZ 1 (Z.of_nat (length worksheet))) ∧
  ∀ i row, worksheet !! i = Some row →
    create_row_mapping object_text worksheet !! (Z.of_nat i + 1)
    = Some (cell_text object_text <$> row).
Proof.
  split; [apply dom_create_row_mapping|].
  intros i row Hrow. unfold create_row_mapping.
  rewrite foldl_create_row_mapping.
  apply lookup_lt_Some in Hrow as Hlt. rewrite decide_True by lia.
  replace (Z.to_nat (Z.of_nat i + 1 - 1)) with i by lia. by rewrite Hrow.
Qed.
End create_row_mapping.

(** ** The rows that the batch caller deletes *)

Lemma elem_of_remove_first x y l : y ∈ remove_first x l → y ∈ l.
Proof.
  induction l as [|z l IH]; simpl; [done|].
  case_bool_decide; rewrite !elem_of_cons; [auto|]. intros [?|?]; auto.
Qed.

Lemma NoDup_remove_first x l :
  NoDup l → NoDup (remove_first x l) ∧ x ∉ remove_first x l.
Proof.
  induction 1 as [|z l Hz Hl [IH1 IH2]]; simpl.
  - split; [constructor|apply not_elem_of_nil].
  - case_bool_decide as Hzx; [by subst|].
    split.
    + constructor; [|done]. intros ?%elem_of_remove_first. done.
    + rewrite not_elem_of_cons. split; [congruence|done].
Qed.

Lemma length_remove_first x l :
  x ∈ l → S (length (remove_first x l)) = length l.
Proof.
  induction l as [|z l IH]; simpl; [by intros ?%elem_of_nil|].
  case_bool_decide as Hzx; [done|].
  intros [?|Hin]%elem_of_cons; [congruence|]. simpl. by rewrite IH.
Qed.

Section rows_to_delete.
Context (object_text : nat → str).

Lemma collect_rows_to_delete_spec col_index filter_values rows :
  ∀ row_idx acc,
  Forall (λ row : list cell, (col_index < length row)%nat) rows →
  ∃ found,
    collect_rows_to_delete object_text col_index filter_values row_idx rows acc
      = Some (acc ++ found) ∧
    NoDup found ∧
    (∀ d, d ∈ found ↔ filtered_out object_text rows col_index filter_values row_idx d) ∧
    (length found ≤ length rows)%nat ∧
    (length rows ≤ length found → rows ≠ [] → row_idx ∈ found)%nat.
Proof.
  induction rows as [|row rows IH]; intros row_idx acc Hwide; simpl.
  - exists []. rewrite app_nil_r. split; [done|]. split; [constructor|].
    split; [|split; [done|done]]. intros d. split; [by intros ?%elem_of_nil|].
    by intros (j & ? & ? & ? & _).
  - apply Forall_cons in Hwide as [Hrow Hwide].
    destruct (lookup_lt_is_Some_2 row col_index Hrow) as [c Hc].
    rewrite Hc. simpl.
    destruct (IH (row_idx + 1)
                (if bool_decide (cell_text object_text c ∉ filter_values)
                 then acc ++ [row_idx] else acc) Hwide)
      as (found & -> & Hnd & Hin & Hlen & Hall).
    assert (Hlater : ∀ d, d ∈ found → row_idx < d).
    { intros d (j & ? & ? & _ & -> & _)%Hin. lia. }
    assert (Hshift : ∀ d,
      filtered_out object_text rows col_index filter_values (row_idx + 1) d ↔
      filtered_out object_text (row :: rows) col_index filter_values row_idx d
      ∧ row_idx < d).
    { intros d. split.
      - intros (j & r & c' & ? & -> & ? & ?).
        split; [|lia]. exists (S j), r, c'. split_and!; [done|lia|done..].
      - intros [(j & r & c' & Hj & -> & ? & ?) Hlt].
        destruct j as [|j]; [lia|]. exists j, r, c'.
        split_and!; [done|lia|done..]. }
    case_bool_decide as Hbad.
    + exists (row_idx :: found). rewrite <- (assoc_L (++)). split; [done|].
      split; [constructor; [|done]; intros ?%Hlater; lia|].
      split; [|split; [simpl; lia|intros; apply list_elem_of_here]].
      intros d. rewrite elem_of_cons, Hin, Hshift. split.
      * intros [->|[? _]]; [|done].
        exists 0%nat, row, c. split_and!; [done|lia|done..].
      * intros (j & r & c' & Hj & -> & Hc' & Hbad').
        destruct j as [|j]; [left; lia|right].
        split; [|lia]. by exists (S j), r, c'.
    + exists found. split; [done|]. split; [done|].
      split; [|split; [simpl; lia|simpl; lia]].
      intros d. rewrite Hin, Hshift. split; [by intros [? _]|].
      intros (j & r & c' & Hj & -> & Hc' & Hbad').
      destruct j as [|j].
      * simpl in Hj. simplify_eq. done.
      * split; [|lia]. by exists (S j), r, c'.
Qed.

(** What the caller gets as [rows_to_delete] when every data row has a cell
    in column [col_index]. *)
Lemma rows_to_delete_returns worksheet col_index filter_values :
  Forall (λ row : list cell, (col_index < length row)%nat) (drop 1 worksheet) →
  ∃ found,
    rows_to_delete object_text worksheet col_index filter_values = Some found ∧
    NoDup found ∧
    (∀ d, d ∈ found →
       filtered_out object_text (drop 1 worksheet) col_index filter_values 2 d) ∧
    ((2 ≤ length worksheet)%nat →
     (length found < length worksheet - 1)%nat).
Proof.
  intros Hwide. unfold rows_to_delete.
  destruct (collect_rows_to_delete_spec col_index filter_values
              (drop 1 worksheet) 2 [] Hwide)
    as (found & -> & Hnd & Hin & Hlen & Hall).
  rewrite app_nil_l. simpl. rewrite length_drop in Hlen, Hall.
  case_bool_decide as Hmany.
  - case_bool_decide as H2.
    + exists (remove_first 2 found).
      destruct (NoDup_remove_first 2 found Hnd) as [Hnd' Hnot].
      pose proof (length_remove_first 2 found H2).
      split; [done|]. split; [done|].
      split; [intros d ?%elem_of_remove_first; by apply Hin|].
      intros Hrows. lia.
    + exists found. split; [done|]. split; [done|].
      split; [intros d ?; by apply Hin|].
      intros Hrows. exfalso. apply H2, Hall; [lia|].
      intros Hnil. apply (f_equal length) in Hnil.
      rewrite length_drop in Hnil. simpl in Hnil. lia.
  - exists found. split; [done|]. split; [done|].
    split; [intros d ?; by apply Hin|]. intros Hrows. lia.
Qed.

(** X5.  When every data row has a cell in the filter column, the caller's
    list of rows to delete is free of repetitions and holds only data rows
    (never the header row 1) whose cell in that column has a text that is not
    among the filter values. *)
Theorem rows_to_delete_filtered worksheet col_index filter_values :
  Forall (λ row : list cell, (col_index < length row)%nat) (drop 1 worksheet) →
  ∃ found,
    rows_to_delete object_text worksheet col_index filter_values = Some found ∧
    NoDup found ∧
    ∀ d, d ∈ found →
      2 ≤ d ≤ Z.of_nat (length worksheet) ∧
      ∃ row c, worksheet !! Z.to_nat (d - 1) = Some row ∧
               row !! col_index = Some c ∧
               cell_text object_text c ∉ filter_values.
Proof.
  intros Hwide.
  destruct (rows_to_delete_returns worksheet col_index filter_values Hwide)
    as (found & Hret & Hnd & Hin & _).
  exists found. split; [done|]. split; [done|].
  intros d (j & row & c & Hj & -> & Hc & Hbad)%Hin.
  rewrite lookup_drop in Hj. apply lookup_lt_Some in Hj as Hlt.
  split; [lia|]. exists row, c.
  replace (Z.to_nat (2 + Z.of_nat j - 1)) with (1 + j)%nat by lia. done.
Qed.

(** X6.  The caller never deletes every data row: when the worksheet has a
    data row, one of the rows 2.. is not in the list of rows to delete. *)
Theorem rows_to_delete_keeps_a_row worksheet col_index filter_values :
  Forall (λ row : list cell, (col_index < length row)%nat) (drop 1 worksheet) →
  (2 ≤ length worksheet)%nat →
  ∃ found,
    rows_to_delete object_text worksheet col_index filter_values = Some found ∧
    ∃ r, 2 ≤ r ≤ Z.of_nat (length worksheet) ∧ r ∉ found.
Proof.
  intros Hwide Hrows.
  destruct (rows_to_delete_returns worksheet col_index filter_values Hwide)
    as (found & Hret & Hnd & Hin & Hkeep).
  specialize (Hkeep Hrows).
  exists found. split; [done|].
  set (data_rows := seqZ 2 (Z.of_nat (length worksheet) - 1)).
  destruct (decide (Forall (.∈ found) data_rows)) as [Hall|Hsome].
  - exfalso.
    assert (data_rows ⊆+ found) as Hsub%submseteq_length.
    { apply NoDup_submseteq; [apply NoDup_seqZ|].
      by apply Forall_forall. }
    unfold data_rows in Hsub. rewrite length_seqZ in Hsub. lia.
  - apply not_Forall_Exists in Hsome; [|apply _].
    apply Exists_exists in Hsome as (r & Hr & Hnot).
    exists r. split; [|done]. unfold data_rows in Hr.
    apply elem_of_seqZ in Hr. lia.
Qed.

(** X7.  In the mapping that the caller builds for a worksheet from its list
    of rows to delete, the header row stays row 1. *)
Theorem header_row_stays worksheet col_index filter_values :
  Forall (λ row : list cell, (col_index < length row)%nat) (drop 1 worksheet) →
  worksheet ≠ [] →
  ∃ found,
    rows_to_delete object_text worksheet col_index filter_values = Some found ∧
    build_row_mapping_after_deletion
      (create_row_mapping object_text worksheet) found !! 1 = Some (Some 1).
Proof.
  intros Hwide Hne.
  destruct (rows_to_delete_returns worksheet col_index filter_values Hwide)
    as (found & Hret & Hnd & Hin & _).
  exists found. split; [done|].
  apply build_row_mapping_below_deletions.
  - rewrite dom_create_row_mapping, elem_of_list_to_set, elem_of_seqZ.
    destruct worksheet; [done|]. simpl. lia.
  - intros d (j & _ & _ & _ & -> & _)%Hin _. lia.
Qed.
End rows_to_delete.

(** ** Deleting the rows and the row mapper agree *)

Lemma filter_all_true {A} (P : A → Prop) `{!∀ x, Decision (P x)} (l : list A) :
  Forall P l → filter P l = l.
Proof.
  induction 1 as [|x l Hx _ IH]; [done|].
  by rewrite filter_cons, decide_True, IH by done.
Qed.

Lemma delete_beyond {A} (l : list A) i : (length l ≤ i)%nat → delete i l = l.
Proof.
  revert i. induction l as [|x l IH]; intros [|i] ?; simpl in *;
    try done; try lia.
  f_equal. apply IH. lia.
Qed.

Lemma sorted_descending (deleted_rows : list Z) :
  NoDup deleted_rows →
  StronglySorted (flip Z.lt) (merge_sort (flip Z.le) deleted_rows).
Proof.
  intros Hnd.
  assert (Total (flip Z.le)) by (intros x y; unfold flip; lia).
  assert (Transitive (flip Z.le)) by (intros x y z; unfold flip; lia).
  pose proof (StronglySorted_merge_sort (flip Z.le) deleted_rows) as Hs.
  assert (NoDup (merge_sort (flip Z.le) deleted_rows)) as Hnd'
    by by rewrite merge_sort_Permutation.
  induction Hs as [|x l Hl IH Hx]; [constructor|].
  apply NoDup_cons in Hnd' as [Hxl Hnd']. constructor; [by apply IH|].
  apply Forall_forall. intros d Hd.
  pose proof (proj1 (Forall_forall _ _) Hx d Hd) as Hle. unfold flip in *.
  assert (d ≠ x) by (by intros ->). lia.
Qed.

(** Deleting rows from the last to the first: where a retained row ends up,
    and how many rows are left. *)
Lemma foldl_delete_rows (l : list Z) :
  StronglySorted (flip Z.lt) l → Forall (λ d, 1 ≤ d) l →
  ∀ worksheet : list (list cell),
    (∀ r, 1 ≤ r → r ∉ l →
       foldl delete_rows worksheet l
         !! Z.to_nat (r - 1 - Z.of_nat (length (filter (λ d, d < r) l)))
       = worksheet !! Z.to_nat (r - 1)) ∧
    length (foldl delete_rows worksheet l)
    = (length worksheet
       - length (filter (λ d, (d ≤ Z.of_nat (length worksheet))%Z) l))%nat.
Proof.
  induction 1 as [|x l Hl IH Hx]; intros Hpos worksheet.
  { simpl. split; [|lia]. intros r ? _. f_equal. lia. }
  apply Forall_cons in Hpos as [Hx1 Hpos].
  assert (Hbelow : ∀ d, d ∈ l → d < x)
    by (intros d Hd; apply (proj1 (Forall_forall _ _) Hx d Hd)).
  destruct (IH Hpos (delete_rows worksheet x)) as [IHlook IHlen].
  cbn [foldl].
  assert (Hdel : delete_rows worksheet x = delete (Z.to_nat (x - 1)) worksheet)
    by (unfold delete_rows; by rewrite bool_decide_eq_true_2).
  split.
  - intros r Hr [Hrx Hrl]%not_elem_of_cons. rewrite filter_cons.
    destruct (decide (x < r)) as [Hlt|Hge].
    + assert (Hall : ∀ b, x ≤ b → filter (λ d, d < b) l = l).
      { intros b Hb. apply filter_all_true, Forall_forall.
        intros d ?%Hbelow. lia. }
      rewrite (Hall r) by lia. simpl.
      specialize (IHlook (r - 1)). rewrite (Hall (r - 1)) in IHlook by lia.
      replace (Z.to_nat (r - 1 - Z.of_nat (S (length l))))
        with (Z.to_nat (r - 1 - 1 - Z.of_nat (length l))) by lia.
      rewrite IHlook; [|lia|intros ?%Hbelow; lia].
      rewrite Hdel, list_lookup_delete_ge by lia. f_equal. lia.
    + rewrite IHlook by (done || lia).
      rewrite Hdel. apply list_lookup_delete_lt. lia.
  - rewrite IHlen, filter_cons, Hdel.
    destruct (decide (x ≤ Z.of_nat (length worksheet))) as [Hin|Hout].
    + rewrite length_delete by (apply lookup_lt_is_Some_2; lia).
      rewrite !filter_all_true; [simpl; lia|..];
        apply Forall_forall; intros d ?%Hbelow; lia.
    + by rewrite delete_beyond by lia.
Qed.

Section deletion.
Context (object_text : nat → str).

(** X8.  Deleting the rows from the last to the first puts every retained
    row where the row mapper says: when the rows to delete are free of
    repetitions, the row that the mapping sends to [v] is the row at
    position [v] of the worksheet after the deletion, and the worksheet has
    lost as many rows as it had rows to delete. *)
Theorem deletion_follows_mapping (worksheet : list (list cell))
    (deleted_rows : list Z) :
  NoDup deleted_rows → (∀ d, d ∈ deleted_rows → 1 ≤ d) →
  let original_map := create_row_mapping object_text worksheet in
  let row_mapping :=
    build_row_mapping_after_deletion original_map deleted_rows in
  (∀ r v, row_mapping !! r = Some (Some v) →
     delete_rows_descending worksheet deleted_rows !! Z.to_nat (v - 1)
     = worksheet !! Z.to_nat (r - 1)) ∧
  length (delete_rows_descending worksheet deleted_rows)
  = (length worksheet
     - size (filter (.∈ deleted_rows) (dom original_map)))%nat.
Proof.
  intros Hnd Hpos original_map row_mapping.
  set (l := merge_sort (flip Z.le) deleted_rows).
  assert (Hperm : l ≡ₚ deleted_rows) by apply merge_sort_Permutation.
  assert (Hl : ∀ d, d ∈ l ↔ d ∈ deleted_rows) by (intros d; by rewrite Hperm).
  assert (Hndl : NoDup l) by by rewrite Hperm.
  assert (Hdom : ∀ k, k ∈ dom original_map
                      ↔ 1 ≤ k ≤ Z.of_nat (length worksheet)).
  { intros k. unfold original_map.
    rewrite dom_create_row_mapping, elem_of_list_to_set, elem_of_seqZ. lia. }
  destruct (foldl_delete_rows l (sorted_descending _ Hnd)) with worksheet
    as [Hlook Hlen].
  { apply Forall_forall. intros d ?%Hl. auto. }
  unfold delete_rows_descending. fold l. split.
  - intros r v (Hr & HrD & ->)%build_row_mapping_retained.
    apply Hdom in Hr.
    rewrite <- (Hlook r); [|lia|by rewrite Hl].
    assert (deleted_below original_map deleted_rows r
            = length (filter (λ d, d < r) l)) as ->; [|f_equal; lia].
    unfold deleted_below.
    rewrite <- (size_list_to_set (C := gset Z) (filter (λ d, d < r) l))
      by by apply NoDup_filter.
    f_equal. apply set_eq. intros k.
    rewrite elem_of_filter, elem_of_list_to_set, list_elem_of_filter, Hl, Hdom.
    split; [tauto|]. intros [? HkD]. specialize (Hpos k HkD).
    split; [done|lia].
  - rewrite Hlen.
    assert (size (filter (.∈ deleted_rows) (dom original_map))
            = length (filter (λ d, d ≤ Z.of_nat (length worksheet)) l))
      as ->; [|done].
    rewrite <- (size_list_to_set (C := gset Z)
                  (filter (λ d, d ≤ Z.of_nat (length worksheet)) l))
      by by apply NoDup_filter.
    f_equal. apply set_eq. intros k.
    rewrite elem_of_filter, elem_of_list_to_set, list_elem_of_filter, Hl, Hdom.
    split; [intros [? ?]; split; [lia|done]|].
    intros [? HkD]. specialize (Hpos k HkD). split; [done|lia].
Qed.
End deletion.

(** ** Condition groups *)

(** X9.  Removing the condition that was added last gives the group back:
    [add_condition] puts the new condition at the index [len(conditions)],
    and [remove_condition] at that index undoes it. *)
Theorem remove_added_condition {V} (group : ConditionGroup V)
    (sheet column : str) (vals : list V) :
  remove_condition (add_condition group sheet column vals)
    (Z.of_nat (length (conditions group)))
  = group.
Proof.
  destruct group as [name conds]. unfold remove_condition, add_condition.
  simpl. rewrite length_app. simpl.
  rewrite bool_decide_eq_true_2 by lia.
  by rewrite Nat2Z.id, delete_middle, app_nil_r.
Qed.

(** ** The file name of a split value *)

Lemma replace_char s c u :
  replace s [c] [u] = (λ x, if (x =? c)%N then u else x) <$> s.
Proof.
  unfold replace. induction s as [|x s IH]; [done|].
  cbn [replace_from startswith length]. rewrite andb_true_r.
  change (1 - 1)%nat with 0%nat. rewrite IH, fmap_cons.
  by destruct (x =? c)%N.
Qed.

Lemma foldl_replace_chars (chars : list N) (u : N) : u ∉ chars → ∀ s,
  foldl (λ safe_value char, replace safe_value [char] [u]) s chars
  = (λ x, if bool_decide (x ∈ chars) then u else x) <$> s.
Proof.
  induction chars as [|c chars IH]; intros Hu s; cbn [foldl].
  - rewrite <- (list_fmap_id s) at 1. apply list_fmap_ext. intros _ x _.
    by rewrite bool_decide_eq_false_2 by apply not_elem_of_nil.
  - apply not_elem_of_cons in Hu as [Huc Hu].
    rewrite IH, replace_char, <- list_fmap_compose by done.
    apply list_fmap_ext. intros _ x _. simpl.
    destruct (x =? c)%N eqn:Hx.
    + apply N.eqb_eq in Hx as ->.
      rewrite (bool_decide_eq_false_2 (u ∈ chars)) by done.
      by rewrite bool_decide_eq_true_2 by apply list_elem_of_here.
    + apply N.eqb_neq in Hx.
      rewrite (bool_decide_ext (x ∈ c :: chars) (x ∈ chars)); [done|].
      rewrite elem_of_cons. split; [by intros [?|?]|by right].
Qed.

Lemma underscore_safe : 95%N ∉ unsafe_chars.
Proof. unfold unsafe_chars. rewrite !not_elem_of_cons. split_and!; try done.
  apply not_elem_of_nil. Qed.

(** X10.  The file-name part made from a split value is at most 20
    characters long (as long as the value, where that is shorter) and holds
    none of the nine characters that are replaced. *)
Theorem safe_value_safe (value_text : str) :
  length (safe_value value_text) = min (length value_text) 20 ∧
  Forall (λ c, c ∉ unsafe_chars) (safe_value value_text).
Proof.
  unfold safe_value. change (py "_") with [95%N].
  rewrite (foldl_replace_chars _ _ underscore_safe).
  set (t := _ <$> value_text).
  assert (Hlen : length t = length value_text) by apply length_fmap.
  assert (Hsafe : Forall (λ c, c ∉ unsafe_chars) t).
  { apply Forall_fmap, Forall_forall. intros x _. simpl.
    case_bool_decide; [apply underscore_safe|done]. }
  case_bool_decide.
  - split; [rewrite length_take; lia|by apply Forall_take].
  - split; [lia|done].
Qed.

(** X11.  A value of at most 20 characters that holds none of the replaced
    characters is used as it is. *)
Theorem safe_value_unchanged (value_text : str) :
  (length value_text ≤ 20)%nat →
  Forall (λ c, c ∉ unsafe_chars) value_text →
  safe_value value_text = value_text.
Proof.
  intros Hlen Hsafe. unfold safe_value. change (py "_") with [95%N].
  rewrite (foldl_replace_chars _ _ underscore_safe).
  assert ((λ x, if bool_decide (x ∈ unsafe_chars) then 95%N else x)
            <$> value_text = value_text) as ->.
  { rewrite <- (list_fmap_id value_text) at 2.
    apply Forall_fmap_ext, (Forall_impl _ _ _ Hsafe). intros x Hx. simpl.
    by rewrite bool_decide_eq_false_2. }
  by rewrite bool_decide_eq_false_2 by lia.
Qed.

(** ** More on the references that are extracted *)

(** What a pattern matches is a piece of the front of the input. *)
Lemma rmatch_suffix {A} r : ∀ s c (k : str → captures → option A) a,
  rmatch r s c k = Some a → ∃ l s' c', s = l ++ s' ∧ k s' c' = Some a.
Proof.
  induction r as [p|r1 IH1 r2 IH2|r1 IH1|p|i r1 IH1]; simpl; intros s c k a.
  - destruct s as [|x s]; [done|]. destruct (p x); [|done].
    intros Hk. by exists [x], s, c.
  - intros (l1 & s1 & c1 & -> & Hm)%IH1.
    apply IH2 in Hm as (l2 & s2 & c2 & -> & Hk).
    exists (l1 ++ l2), s2, c2. by rewrite <- (assoc_L (++)).
  - destruct (rmatch r1 s c k) as [b|] eqn:Hm.
    + intros [= ->]. by apply IH1 in Hm.
    + intros Hk. by exists [], s, c.
  - intros (l & s' & -> & _ & _ & Hk)%plus_match_inv. by exists l, s', c.
  - intros (l & s' & c' & -> & Hk)%IH1. eauto.
Qed.

Lemma sheet_pattern_needs_bang {tables : UnicodeTables} {A} s c
    (k : str → captures → option A) a :
  rmatch sheet_pattern s c k = Some a → bang ∈ s.
Proof.
  unfold sheet_pattern. rewrite rmatch_Cat.
  intros (l & s' & c' & -> & Hm)%rmatch_suffix. simpl in Hm.
  destruct s' as [|x s']; [done|].
  destruct (is_char bang x) eqn:Hx; [|done].
  apply N.eqb_eq in Hx as ->. apply elem_of_app. right. apply list_elem_of_here.
Qed.

Lemma reference_parts_chars col_ref row_ref :
  reference_parts col_ref row_ref →
  Forall (λ c, c = dollar ∨ upper c = true ∨ digit c = true)
    (col_ref ++ row_ref) ∧
  Exists (λ c, upper c = true) (col_ref ++ row_ref) ∧
  Exists (λ c, digit c = true) (col_ref ++ row_ref) ∧
  ∃ c ref', col_ref ++ row_ref = c :: ref' ∧ (c = dollar ∨ upper c = true).
Proof.
  intros (cmark & letters & rmark & digits & -> & ->
          & (Hcm & Hl & Hup) & (Hrm & Hd & Hdig)).
  assert (Hmark : ∀ mark, mark = [] ∨ mark = [dollar] →
            Forall (λ c, c = dollar ∨ upper c = true ∨ digit c = true) mark).
  { intros mark [->| ->]; repeat constructor. }
  split_and!.
  - rewrite !Forall_app. split_and!; [by apply Hmark| |by apply Hmark|].
    + eapply Forall_impl; [exact Hup|]. simpl. auto.
    + eapply Forall_impl; [exact Hdig|]. simpl. auto.
  - destruct Hup as [|x letters Hx _]; [done|].
    apply Exists_app. left. apply Exists_app. right. by constructor.
  - destruct Hdig as [|x digits Hx _]; [done|].
    apply Exists_app. right. apply Exists_app. right. by constructor.
  - destruct Hcm as [->| ->].
    + destruct Hup as [|x letters Hx _]; [done|]. simpl. eauto.
    + simpl. eauto.
Qed.

Section extracted_references.
Context {tables : UnicodeTables}.

Lemma reference_match_infix s rest groups :
  re_match reference_pattern s = Some (rest, groups) →
  ∃ pre col_ref row_ref,
    s = pre ++ (col_ref ++ row_ref) ++ rest ∧
    group_text 1 groups = col_ref ++ row_ref ∧
    reference_parts col_ref row_ref.
Proof.
  unfold re_match, reference_pattern. rewrite rmatch_Cat, rmatch_Opt.
  intros Hm.
  assert (∃ pre s1 c1, s = pre ++ s1 ∧
            rmatch (Group 1 cell_pattern) s1 c1 (λ s' c, Some (s', c))
            = Some (rest, groups)) as (pre & s1 & c1 & -> & Hg).
  { destruct (rmatch sheet_pattern s [] _) as [b|] eqn:Hs.
    - simplify_eq. by apply rmatch_suffix in Hs.
    - by exists [], s, []. }
  rewrite rmatch_Group in Hg.
  apply cell_pattern_inv in Hg as (col_ref & row_ref & s' & -> & Hparts & Hg).
  injection Hg as <- <-. exists pre, col_ref, row_ref.
  split; [by rewrite <- !(assoc_L (++))|]. split; [|done].
  unfold group_text. simpl.
  by rewrite (assoc_L (++) col_ref), take_consumed.
Qed.

Lemma findall_reference_infix skip s ref :
  ref ∈ findall_from reference_pattern skip s →
  ∃ pre post col_ref row_ref,
    s = pre ++ ref ++ post ∧ ref = col_ref ++ row_ref ∧
    reference_parts col_ref row_ref.
Proof.
  revert skip. induction s as [|x s IH]; intros skip; simpl.
  { by intros ?%elem_of_nil. }
  assert (Hlater : ∀ n, ref ∈ findall_from reference_pattern n s →
            ∃ pre post col_ref row_ref,
              x :: s = pre ++ ref ++ post ∧ ref = col_ref ++ row_ref ∧
              reference_parts col_ref row_ref).
  { intros n (pre & post & col_ref & row_ref & -> & ? & ?)%IH.
    by exists (x :: pre), post, col_ref, row_ref. }
  destruct skip as [|n]; [|by apply Hlater].
  destruct (re_match reference_pattern (x :: s)) as [[rest groups]|] eqn:Hm;
    [|by apply Hlater].
  intros [->|Hin]%elem_of_cons; [|by apply Hlater in Hin].
  apply reference_match_infix in Hm
    as (pre & col_ref & row_ref & -> & -> & Hparts).
  by exists pre, rest, col_ref, row_ref.
Qed.

(** X12.  Every reference that [parse_cell_references] extracts is a piece
    of the formula of the form: optional dollar sign, capital letters,
    optional dollar sign, digits; and the pattern of
    [adjust_formula_references] matches all of it, as its column part
    followed by its row part. *)
Theorem extracted_references_match (formula ref : str) :
  ref ∈ parse_cell_references formula →
  ∃ pre post col_ref row_ref,
    formula = pre ++ ref ++ post ∧
    ref = col_ref ++ row_ref ∧
    reference_parts col_ref row_ref ∧
    re_match parts_pattern ref
    = Some ([], [(2%nat, row_ref); (1%nat, col_ref)]).
Proof.
  unfold parse_cell_references, findall. destruct formula as [|x formula].
  { by intros ?%elem_of_nil. }
  intros (pre & post & col_ref & row_ref & -> & -> & Hparts)
           %findall_reference_infix.
  exists pre, post, col_ref, row_ref. split_and!; try done.
  by apply parts_match_whole.
Qed.

Lemma adjust_formula_references_no_reference formula row_mapping :
  parse_cell_references formula = [] →
  adjust_formula_references formula row_mapping = Returns formula.
Proof.
  intros Hnone. unfold adjust_formula_references. rewrite Hnone.
  destruct formula; [done|]. by destruct (negb _).
Qed.

(** X13.  A formula without a capital letter, or without a digit, holds no
    reference for the rewriter (so references with small letters, whole
    columns and whole rows are not seen) and is returned as it is. *)
Theorem formula_without_reference (formula : str)
    (row_mapping : gmap Z (option Z)) :
  Forall (λ c, upper c = false) formula ∨ Forall (λ c, digit c = false) formula →
  parse_cell_references formula = [] ∧
  adjust_formula_references formula row_mapping = Returns formula.
Proof.
  intros Hnone.
  assert (parse_cell_references formula = []) as Hrefs.
  { apply elem_of_nil_inv. intros ref Hin.
    unfold parse_cell_references, findall in Hin.
    destruct formula as [|x formula]; [by apply elem_of_nil in Hin|].
    apply findall_reference_infix in Hin
      as (pre & post & col_ref & row_ref & Hf & -> & Hparts).
    destruct (reference_parts_chars _ _ Hparts) as (_ & Hup & Hdig & _).
    rewrite Hf in Hnone.
    destruct Hnone as [Hnone|Hnone];
      apply Forall_app in Hnone as [_ [Hnone _]%Forall_app].
    - apply Exists_exists in Hup as (c & Hc & Hcu).
      apply (proj1 (Forall_forall _ _) Hnone) in Hc. congruence.
    - apply Exists_exists in Hdig as (c & Hc & Hcd).
      apply (proj1 (Forall_forall _ _) Hnone) in Hc. congruence. }
  split; [done|]. by apply adjust_formula_references_no_reference.
Qed.
End extracted_references.

(** ** References that the rewriter leaves alone, and what it keeps *)

Lemma adjust_reference_skipped row_mapping new_formula ref n :
  row_number ref = Some n →
  row_mapping !! n = None ∨ row_mapping !! n = Some None →
  adjust_reference row_mapping new_formula ref = Returns new_formula.
Proof.
  intros Hn Hskip.
  destruct (re_match parts_pattern ref) as [[rest groups]|] eqn:Hm.
  2:{ unfold row_number, row_digits in Hn. by rewrite Hm in Hn. }
  destruct (adjust_reference_match row_mapping new_formula ref rest groups Hm)
    as (rmark & digits & _ & _ & Hdigits & ->).
  rewrite (row_number_digits _ _ Hdigits) in Hn.
  destruct (int digits) as [n'|]; [|done]. injection Hn as ->.
  rewrite bind_returns. by destruct Hskip as [-> | ->].
Qed.

Lemma replace_keeps_head h t c ref new :
  c ≠ h → replace (h :: t) (c :: ref) new = h :: replace t (c :: ref) new.
Proof.
  intros Hne. unfold replace. cbn [replace_from startswith].
  assert ((h =? c)%N = false) as -> by (apply N.eqb_neq; congruence).
  done.
Qed.

Section rewriter_keeps.
Context {tables : UnicodeTables}.

(** X14.  A formula in which every extracted reference has a row number
    within the limit of [int] that the mapping does not hold, or holds as
    deleted, is returned as it is. *)
Theorem unmapped_rows_unchanged (formula : str)
    (row_mapping : gmap Z (option Z)) :
  Forall (λ ref, ∃ n, row_number ref = Some n ∧
                      (row_mapping !! n = None ∨ row_mapping !! n = Some None))
    (parse_cell_references formula) →
  adjust_formula_references formula row_mapping = Returns formula.
Proof.
  intros Hskip. unfold adjust_formula_references.
  destruct formula as [|c formula]; [done|]. destruct (negb _); [done|].
  rewrite <- sort_by_len_desc_perm in Hskip.
  induction Hskip as [|ref refs (n & Hn & Href) _ IH]; [done|].
  simpl. by rewrite (adjust_reference_skipped _ _ _ n), bind_returns.
Qed.

(** X15.  What is returned for a formula is a formula again: when the
    rewriter meets no limit of [int] or [str], it returns for a string that
    starts with the equals sign a text that starts with it. *)
Theorem rewritten_formula_is_formula (formula : str)
    (row_mapping : gmap Z (option Z)) :
  startswith formula (py "=") = true →
  Forall (within_limits row_mapping) (parse_cell_references formula) →
  ∃ new_formula,
    adjust_formula_references formula row_mapping = Returns new_formula ∧
    startswith new_formula (py "=") = true.
Proof.
  intros Hstart Hlimits. rewrite adjust_formula_references_formula by done.
  assert (Hrefs : Forall (λ ref, within_limits row_mapping ref ∧
                                 ∃ c ref', ref = c :: ref' ∧ c ≠ 61%N)
            (sort_by_len_desc (parse_cell_references formula))).
  { rewrite sort_by_len_desc_perm. apply Forall_forall. intros ref Hin.
    split; [by eapply Forall_forall in Hlimits|].
    apply parse_cell_references_parts in Hin
      as (col_ref & row_ref & -> & Hparts).
    destruct (reference_parts_chars _ _ Hparts)
      as (_ & _ & _ & c & ref' & -> & Hc).
    exists c, ref'. split; [done|].
    destruct Hc as [->|Hc]; [done|]. by intros ->. }
  clear Hlimits. revert Hrefs Hstart.
  generalize (sort_by_len_desc (parse_cell_references formula)) as refs.
  generalize formula as new_formula. intros new_formula refs Hrefs.
  revert new_formula.
  induction Hrefs as [|ref refs Href _ IH];
    intros new_formula Hstart; simpl; [eauto|].
  destruct Href as (Hlimit & c & ref' & -> & Hc).
  destruct (adjust_reference_returns row_mapping new_formula (c :: ref') Hlimit)
    as [->|[new_ref ->]]; rewrite bind_returns; [by apply IH|].
  apply IH. destruct new_formula as [|h t]; [done|].
  simpl in Hstart. apply andb_true_iff in Hstart as [->%N.eqb_eq _].
  by rewrite replace_keeps_head.
Qed.
End rewriter_keeps.

(** ** A formula that is one reference *)

Lemma cell_pattern_whole {A} col_ref row_ref c
    (k : str → captures → option A) a :
  reference_parts col_ref row_ref → k [] c = Some a →
  rmatch cell_pattern (col_ref ++ row_ref) c k = Some a.
Proof.
  intros (cmark & letters & rmark & digits & -> & -> & Hc & Hr) Hk.
  unfold cell_pattern. rewrite rmatch_Cat_assoc.
  rewrite <- !(assoc_L (++) cmark).
  apply rmatch_marked_run; [done|done| |].
  - destruct Hr as ([->| ->] & Hne & Hd); [|done].
    destruct Hd as [|d ds Hd _]; [done|]. simpl.
    destruct (upper d) eqn:Hu; [|done].
    apply upper_not_digit in Hu. congruence.
  - rewrite <- (app_nil_r (rmark ++ digits)), <- (assoc_L (++) rmark).
    by apply rmatch_marked_run.
Qed.

Lemma findall_from_skip_all r n s :
  (length s ≤ n)%nat → findall_from r n s = [].
Proof.
  revert n. induction s as [|x s IH]; intros n Hn; [done|].
  destruct n as [|n]; simpl in *; [lia|]. apply IH. lia.
Qed.

Lemma replace_from_skip_all old new n s :
  (length s ≤ n)%nat → replace_from old new n s = [].
Proof. intros Hn. by rewrite replace_from_skip, drop_ge. Qed.

Lemma startswith_refl s : startswith s s = true.
Proof. induction s as [|c s IH]; [done|]. simpl. by rewrite N.eqb_refl. Qed.

Lemma replace_whole c ref new : replace (c :: ref) (c :: ref) new = new.
Proof.
  unfold replace. cbn [replace_from]. rewrite startswith_refl.
  rewrite replace_from_skip_all by (simpl; lia). apply app_nil_r.
Qed.

Lemma reference_parts_no_bang col_ref row_ref :
  reference_parts col_ref row_ref → bang ∉ col_ref ++ row_ref.
Proof.
  intros [Hchars _]%reference_parts_chars Hin.
  apply (proj1 (Forall_forall _ _) Hchars) in Hin as [?|[?|?]]; done.
Qed.

Section single_reference.
Context {tables : UnicodeTables}.

Lemma sheet_pattern_without_bang {A} s c (k : str → captures → option A) :
  bang ∉ s → rmatch sheet_pattern s c k = None.
Proof.
  intros Hbang. destruct (rmatch sheet_pattern s c k) eqn:Hm; [|done].
  by apply sheet_pattern_needs_bang in Hm.
Qed.

Lemma reference_match_whole col_ref row_ref :
  reference_parts col_ref row_ref →
  re_match reference_pattern (col_ref ++ row_ref)
  = Some ([], [(1%nat, col_ref ++ row_ref)]).
Proof.
  intros Hparts. unfold re_match, reference_pattern.
  rewrite rmatch_Cat, rmatch_Opt.
  rewrite sheet_pattern_without_bang by by apply reference_parts_no_bang.
  rewrite rmatch_Group. apply cell_pattern_whole; [done|].
  simpl length. by rewrite Nat.sub_0_r, take_ge.
Qed.

Lemma parse_single_reference col_ref row_ref :
  reference_parts col_ref row_ref →
  parse_cell_references (py "=" ++ col_ref ++ row_ref) = [col_ref ++ row_ref].
Proof.
  intros Hparts.
  pose proof (reference_parts_no_bang _ _ Hparts) as Hbang.
  pose proof (reference_match_whole _ _ Hparts) as Hwhole.
  destruct (reference_parts_chars _ _ Hparts)
    as (_ & _ & _ & c & ref' & Href & _).
  unfold parse_cell_references, findall. change (py "=") with [61%N].
  cbn [app findall_from].
  assert (re_match reference_pattern (61%N :: col_ref ++ row_ref) = None) as ->.
  { unfold re_match, reference_pattern. rewrite rmatch_Cat, rmatch_Opt.
    rewrite sheet_pattern_without_bang; [done|].
    rewrite not_elem_of_cons. by split. }
  rewrite Href in *. cbn [findall_from]. rewrite Hwhole.
  change (group_text 1 _) with (c :: ref').
  by rewrite findall_from_skip_all by (simpl; lia).
Qed.

(** X16.  A formula that is one reference to a row that the mapping sends
    to row [v], a number that [str] writes, is rewritten to the reference
    with the row number [v]: the column letters and both dollar signs stay
    as they are. *)
Theorem single_reference_rewritten (cmark letters rmark digits : str)
    (n v : Z) (row_mapping : gmap Z (option Z)) :
  marked_run upper cmark letters → marked_run digit rmark digits →
  int digits = Returns n →
  row_mapping !! n = Some (Some v) →
  Z.of_nat (decimal_digits v) ≤ max_str_digits →
  adjust_formula_references
    (py "=" ++ (cmark ++ letters) ++ rmark ++ digits) row_mapping
  = Returns (py "=" ++ (cmark ++ letters) ++ rmark ++ str_of_int v).
Proof.
  intros Hc Hr Hint Hrow Hv.
  assert (Hparts : reference_parts (cmark ++ letters) (rmark ++ digits))
    by (by exists cmark, letters, rmark, digits).
  rewrite adjust_formula_references_formula by done.
  rewrite (parse_single_reference _ _ Hparts). cbn [sort_by_len_desc foldr
    insert_by_len for_each].
  rewrite (adjust_reference_retained _ _ _ _ _ _ n v) by done.
  rewrite bind_returns.
  destruct (reference_parts_chars _ _ Hparts)
    as (_ & _ & _ & c & ref' & Href & Hhead).
  rewrite Href. change (py "=") with [61%N]. cbn [app].
  rewrite replace_keeps_head, replace_whole; [done|].
  destruct Hhead as [->|Hup]; [done|]. by intros ->.
Qed.
End single_reference.

(** ** The pass over the references to other sheets *)

Lemma adjust_sheet_reference_returns sheet_row_mappings new_formula sheet_ref :
  sheet_reference_within_limits sheet_row_mappings sheet_ref →
  ∃ result,
    adjust_sheet_reference sheet_row_mappings new_formula sheet_ref
    = Returns result.
Proof.
  destruct sheet_ref as [ref_sheet cell_ref]. intros Hlimits.
  unfold adjust_sheet_reference.
  case_bool_decide as Hsheet; [|eauto].
  apply elem_of_dom in Hsheet as [mapping Hmapping].
  destruct (Hlimits mapping Hmapping) as (n & Hn & Hwrite).
  cbn [snd] in Hn. unfold row_number, row_digits in Hn.
  destruct (re_match parts_pattern cell_ref) as [[rest groups]|] eqn:Hm;
    [|eauto].
  apply parts_match_inv in Hm
    as [(cmark & letters & rmark & digits & _ & Hrow & _ & Hr) _].
  cbv zeta in Hn. rewrite Hrow in *. rewrite (strip_mark _ _ Hr) in Hn.
  rewrite (read_row_ref _ _ Hr).
  destruct (int digits) as [n'|]; [|done]. injection Hn as ->.
  rewrite !bind_returns, Hmapping.
  case_bool_decide as Hin; [|eauto].
  apply elem_of_dom in Hin as [new_row_num Hlook].
  unfold getitem. rewrite Hlook, bind_returns.
  destruct new_row_num as [v|]; [|eauto].
  rewrite (str_int_writable v) by by apply Hwrite.
  rewrite bind_returns. eauto.
Qed.

(** X17.  The pass over the references to other sheets returns for a
    formula text and a collection of row mappings when no reference to a
    mapped sheet meets the limit of [int] or [str]: the two dict subscripts
    never raise. *)
Theorem adjust_sheet_references_total (formula : str)
    (sheet_row_mappings : gmap (list N) (gmap Z (option Z))) :
  Forall (sheet_reference_within_limits sheet_row_mappings)
    (findall2_from sheet_reference_pattern 0 formula) →
  ∃ new_formula,
    adjust_sheet_references formula sheet_row_mappings = Returns new_formula.
Proof.
  intros Hlimits. unfold adjust_sheet_references. apply for_each_total.
  eapply Forall_impl; [exact Hlimits|]. intros sheet_ref Href new_formula.
  by apply adjust_sheet_reference_returns.
Qed.

Lemma rmatch_Class {A} p x s c (k : str → captures → option A) :
  rmatch (Class p) (x :: s) c k = if p x then k s c else None.
Proof. done. Qed.

Lemma rmatch_Plus {A} p s c (k : str → captures → option A) :
  rmatch (Plus p) s c k = plus_match p s (λ s', k s' c).
Proof. done. Qed.

Lemma findall2_from_skip_all r n s :
  (length s ≤ n)%nat → findall2_from r n s = [].
Proof.
  revert n. induction s as [|x s IH]; intros n Hn; [done|].
  destruct n as [|n]; simpl in *; [lia|]. apply IH. lia.
Qed.

Lemma lstrip_quotes_snoc l x :
  squote x = false → ∃ l', lstrip_quotes (l ++ [x]) = l' ++ [x].
Proof.
  intros Hx. induction l as [|y l [l' IH]]; simpl.
  - rewrite Hx. by exists [].
  - destruct (squote y); [eauto|]. by exists (y :: l).
Qed.

Lemma strip_quotes_head x s :
  squote x = false → head (strip_quotes (x :: s)) = Some x.
Proof.
  intros Hx. unfold strip_quotes. simpl. rewrite Hx, reverse_cons.
  destruct (lstrip_quotes_snoc (reverse s) x Hx) as [l' ->].
  by rewrite reverse_app.
Qed.

Lemma sheet_reference_match sheet col_ref row_ref :
  bang ∉ sheet → reference_parts col_ref row_ref →
  re_match sheet_reference_pattern
    (61%N :: sheet ++ bang :: col_ref ++ row_ref)
  = Some ([], [(2%nat, col_ref ++ row_ref); (1%nat, 61%N :: sheet)]).
Proof.
  intros Hbang Hparts. unfold re_match, sheet_reference_pattern.
  rewrite rmatch_Cat, rmatch_Group, rmatch_Cat, rmatch_Opt, rmatch_Class.
  change (squote 61%N) with false. cbv iota.
  rewrite rmatch_Cat, rmatch_Plus.
  change (61%N :: sheet ++ bang :: col_ref ++ row_ref)
    with ((61%N :: sheet) ++ bang :: col_ref ++ row_ref).
  apply plus_match_run.
  - done.
  - constructor; [done|]. apply Forall_forall. intros c Hc.
    unfold not_bang, is_char. apply negb_true_iff, N.eqb_neq. by intros ->.
  - rewrite rmatch_Opt, !rmatch_Class. change (squote bang) with false.
    cbv iota. rewrite rmatch_Cat, rmatch_Class.
    change (is_char bang bang) with true. cbv iota.
    rewrite rmatch_Group. apply cell_pattern_whole; [done|].
    rewrite take_consumed. simpl length.
    by rewrite Nat.sub_0_r, take_ge.
  - simpl. by intros [=].
Qed.

(** X18.  A formula that is one reference with a sheet name in front of it
    is returned as it is by the pass over the references to other sheets,
    whatever rows are mapped for that sheet: the sheet text that the pattern
    captures starts at the equals sign of the formula, and no mapped sheet
    has a name that starts with the equals sign. *)
Theorem sheet_qualified_reference_untouched (sheet col_ref row_ref : str)
    (sheet_row_mappings : gmap (list N) (gmap Z (option Z))) :
  bang ∉ sheet → reference_parts col_ref row_ref →
  (∀ name, name ∈ dom sheet_row_mappings → head name ≠ Some 61%N) →
  adjust_sheet_references
    (py "=" ++ sheet ++ bang :: col_ref ++ row_ref) sheet_row_mappings
  = Returns (py "=" ++ sheet ++ bang :: col_ref ++ row_ref).
Proof.
  intros Hbang Hparts Hnames. unfold adjust_sheet_references.
  change (py "=") with [61%N]. cbn [app findall2_from].
  rewrite (sheet_reference_match _ _ _ Hbang Hparts).
  change (group_text 1 _) with (61%N :: sheet).
  change (group_text 2 _) with (col_ref ++ row_ref).
  rewrite findall2_from_skip_all by (simpl; lia).
  cbn [for_each]. unfold adjust_sheet_reference.
  rewrite bool_decide_eq_false_2; [done|].
  intros Hin%Hnames. by rewrite strip_quotes_head in Hin.
Qed.

(** ** The further theorems at concrete inputs *)

(** X1 at the rows 1..3: row 7 is not a row of the input. *)
Lemma build_row_mapping_deleted_set_witness :
  (∀ r, r ∈ dom (rows_upto 3) → (r ∈ [2] ↔ r ∈ [2; 7])) ∧
  build_row_mapping_after_deletion (rows_upto 3) [2]
  = build_row_mapping_after_deletion (rows_upto 3) [2; 7].
Proof.
  assert (Hsame : ∀ r, r ∈ dom (rows_upto 3) → (r ∈ [2] ↔ r ∈ [2; 7])).
  { intros r Hr. rewrite dom_rows_upto in Hr.
    apply elem_of_list_to_set, elem_of_seqZ in Hr.
    rewrite !elem_of_cons, elem_of_nil. lia. }
  split; [exact Hsame|].
  exact (build_row_mapping_deleted_set (rows_upto 3) [2] [2; 7] Hsame).
Defined.

(** X2 at the rows 1..5 with row 3 deleted, for row 4. *)
Lemma retained_row_bounds_witness :
  build_row_mapping_after_deletion (rows_upto 5) [3] !! 4 = Some (Some 3) ∧
  4 - Z.of_nat (size (filter (.∈ [3]) (dom (rows_upto 5)))) ≤ 3 ≤ 4 ∧
  ((∀ k, k ∈ dom (rows_upto 5) → 1 ≤ k) → 1 ≤ 3).
Proof.
  assert (Hrow : build_row_mapping_after_deletion (rows_upto 5) [3] !! 4
                 = Some (Some 3)) by (vm_compute; reflexivity).
  split; [exact Hrow|].
  exact (retained_row_bounds (rows_upto 5) [3] 4 3 Hrow).
Defined.

(** X3 at the rows 1..5 with row 3 deleted, for row 2. *)
Lemma rows_before_first_deletion_witness :
  2 ∈ dom (rows_upto 5) ∧
  (∀ d, d ∈ [3] → d ∈ dom (rows_upto 5) → 2 < d) ∧
  build_row_mapping_after_deletion (rows_upto 5) [3] !! 2 = Some (Some 2).
Proof.
  assert (Hrow : 2 ∈ dom (rows_upto 5)) by (by vm_compute).
  assert (Hbelow : ∀ d, d ∈ [3] → d ∈ dom (rows_upto 5) → 2 < d).
  { intros d Hd%list_elem_of_singleton _. lia. }
  split; [exact Hrow|]. split; [exact Hbelow|].
  exact (rows_before_first_deletion (rows_upto 5) [3] 2 Hrow Hbelow).
Defined.

(** X4 at the worksheet [regions], for its third row. *)
Lemma create_row_mapping_rows_witness :
  regions !! 2%nat
  = Some [Cell (py "s") (VStr (py "West")); Cell (py "n") (VInt 20)] ∧
  create_row_mapping no_text regions !! (Z.of_nat 2 + 1)
  = Some (cell_text no_text
            <$> [Cell (py "s") (VStr (py "West")); Cell (py "n") (VInt 20)]).
Proof.
  assert (Hrow : regions !! 2%nat
            = Some [Cell (py "s") (VStr (py "West")); Cell (py "n") (VInt 20)])
    by reflexivity.
  split; [exact Hrow|].
  exact (proj2 (create_row_mapping_rows no_text regions) 2%nat _ Hrow).
Defined.

(** X5 at the worksheet [regions], filtered on its first column for East. *)
Lemma rows_to_delete_filtered_witness :
  Forall (λ row : list cell, (0 < length row)%nat) (drop 1 regions) ∧
  ∃ found,
    rows_to_delete no_text regions 0 [py "East"] = Some found ∧
    NoDup found ∧
    ∀ d, d ∈ found →
      2 ≤ d ≤ Z.of_nat (length regions) ∧
      ∃ row c, regions !! Z.to_nat (d - 1) = Some row ∧
               row !! 0%nat = Some c ∧
               cell_text no_text c ∉ [py "East"].
Proof.
  assert (Hcol : Forall (λ row : list cell, (0 < length row)%nat)
                   (drop 1 regions))
    by (repeat constructor).
  split; [exact Hcol|].
  exact (rows_to_delete_filtered no_text regions 0 [py "East"] Hcol).
Defined.

(** X6 at the worksheet [regions], filtered for a value that no row has. *)
Lemma rows_to_delete_keeps_a_row_witness :
  Forall (λ row : list cell, (0 < length row)%nat) (drop 1 regions) ∧
  (2 ≤ length regions)%nat ∧
  ∃ found,
    rows_to_delete no_text regions 0 [py "North"] = Some found ∧
    ∃ r, 2 ≤ r ≤ Z.of_nat (length regions) ∧ r ∉ found.
Proof.
  assert (Hcol : Forall (λ row : list cell, (0 < length row)%nat)
                   (drop 1 regions))
    by (repeat constructor).
  assert (Hrows : (2 ≤ length regions)%nat) by (simpl; lia).
  split; [exact Hcol|]. split; [exact Hrows|].
  exact (rows_to_delete_keeps_a_row no_text regions 0 [py "North"] Hcol Hrows).
Defined.

(** X7 at the worksheet [regions], filtered on its first column for West. *)
Lemma header_row_stays_witness :
  Forall (λ row : list cell, (0 < length row)%nat) (drop 1 regions) ∧
  regions ≠ [] ∧
  ∃ found,
    rows_to_delete no_text regions 0 [py "West"] = Some found ∧
    build_row_mapping_after_deletion
      (create_row_mapping no_text regions) found !! 1 = Some (Some 1).
Proof.
  assert (Hcol : Forall (λ row : list cell, (0 < length row)%nat)
                   (drop 1 regions))
    by (repeat constructor).
  assert (Hrows : regions ≠ []) by discriminate.
  split; [exact Hcol|]. split; [exact Hrows|].
  exact (header_row_stays no_text regions 0 [py "West"] Hcol Hrows).
Defined.

(** X8 at the worksheet [regions] with its rows 2 and 4 deleted. *)
Lemma deletion_follows_mapping_witness :
  NoDup [2; 4] ∧ (∀ d, d ∈ [2; 4] → 1 ≤ d) ∧
  (∀ r v,
     build_row_mapping_after_deletion
       (create_row_mapping no_text regions) [2; 4] !! r = Some (Some v) →
     delete_rows_descending regions [2; 4] !! Z.to_nat (v - 1)
     = regions !! Z.to_nat (r - 1)) ∧
  length (delete_rows_descending regions [2; 4])
  = (length regions
     - size (filter (.∈ [2; 4]%Z)
               (dom (create_row_mapping no_text regions))))%nat.
Proof.
  assert (Hnodup : NoDup [2; 4]).
  { apply NoDup_cons. split; [|apply NoDup_singleton].
    intros Hin%list_elem_of_singleton. lia. }
  assert (Hpos : ∀ d, d ∈ [2; 4] → 1 ≤ d).
  { intros d Hd. rewrite !elem_of_cons, elem_of_nil in Hd. lia. }
  split; [exact Hnodup|]. split; [exact Hpos|].
  exact (deletion_follows_mapping no_text regions [2; 4] Hnodup Hpos).
Defined.

(** X11 at the value East. *)
Lemma safe_value_unchanged_witness :
  (length (py "East") ≤ 20)%nat ∧
  Forall (λ c, c ∉ unsafe_chars) (py "East") ∧
  safe_value (py "East") = py "East".
Proof.
  assert (Hlen : (length (py "East") ≤ 20)%nat) by (simpl; lia).
  assert (Hsafe : Forall (λ c, c ∉ unsafe_chars) (py "East")).
  { apply Forall_forall. intros c Hc. apply (bool_decide_unpack _).
    revert c Hc. apply Forall_forall. by repeat constructor. }
  split; [exact Hlen|]. split; [exact Hsafe|].
  exact (safe_value_unchanged (py "East") Hlen Hsafe).
Defined.

(** X12 at the second reference of a sum. *)
Lemma extracted_references_match_witness :
  py "B2" ∈ parse_cell_references (tables := ascii_only) (py "=A1+B2") ∧
  ∃ pre post col_ref row_ref,
    py "=A1+B2" = pre ++ py "B2" ++ post ∧
    py "B2" = col_ref ++ row_ref ∧
    reference_parts col_ref row_ref ∧
    re_match parts_pattern (py "B2")
    = Some ([], [(2%nat, row_ref); (1%nat, col_ref)]).
Proof.
  assert (Hin : py "B2" ∈ parse_cell_references (tables := ascii_only)
                            (py "=A1+B2"))
    by (vm_compute; apply list_elem_of_further, list_elem_of_here).
  split; [exact Hin|].
  exact (extracted_references_match (tables := ascii_only) _ _ Hin).
Defined.

(** X13 at a formula without a digit. *)
Lemma formula_without_reference_witness :
  (Forall (λ c, upper c = false) (py "=SUM(Total)") ∨
   Forall (λ c, digit c = false) (py "=SUM(Total)")) ∧
  parse_cell_references (tables := ascii_only) (py "=SUM(Total)") = [] ∧
  adjust_formula_references (tables := ascii_only) (py "=SUM(Total)")
    (build_row_mapping_after_deletion (rows_upto 5) [3])
  = Returns (py "=SUM(Total)").
Proof.
  assert (Hnone : Forall (λ c, upper c = false) (py "=SUM(Total)") ∨
                  Forall (λ c, digit c = false) (py "=SUM(Total)"))
    by (right; repeat constructor).
  split; [exact Hnone|].
  exact (formula_without_reference (tables := ascii_only) _ _ Hnone).
Defined.

(** X14 at a reference to a row beyond the rows of the mapping and a
    reference to a deleted row. *)
Lemma unmapped_rows_unchanged_witness :
  Forall (λ ref, ∃ n, row_number ref = Some n ∧
            (build_row_mapping_after_deletion (rows_upto 5) [3] !! n = None ∨
             build_row_mapping_after_deletion (rows_upto 5) [3] !! n
             = Some None))
    (parse_cell_references (tables := ascii_only) (py "=A9+B3")) ∧
  adjust_formula_references (tables := ascii_only) (py "=A9+B3")
    (build_row_mapping_after_deletion (rows_upto 5) [3])
  = Returns (py "=A9+B3").
Proof.
  assert (Hrows : Forall (λ ref, ∃ n, row_number ref = Some n ∧
            (build_row_mapping_after_deletion (rows_upto 5) [3] !! n = None ∨
             build_row_mapping_after_deletion (rows_upto 5) [3] !! n
             = Some None))
    (parse_cell_references (tables := ascii_only) (py "=A9+B3"))).
  { change (parse_cell_references (tables := ascii_only) (py "=A9+B3"))
      with [py "A9"; py "B3"].
    constructor; [|constructor; [|constructor]].
    - exists 9. split; [reflexivity|]. left. vm_compute. reflexivity.
    - exists 3. split; [reflexivity|]. right. vm_compute. reflexivity. }
  split; [exact Hrows|].
  exact (unmapped_rows_unchanged (tables := ascii_only) _ _ Hrows).
Defined.

(** X15 at a formula with one reference. *)
Lemma rewritten_formula_is_formula_witness :
  startswith (py "=A10") (py "=") = true ∧
  Forall (within_limits
            (build_row_mapping_after_deletion (rows_upto 10) [2; 3; 4]))
    (parse_cell_references (tables := ascii_only) (py "=A10")) ∧
  ∃ new_formula,
    adjust_formula_references (tables := ascii_only) (py "=A10")
      (build_row_mapping_after_deletion (rows_upto 10) [2; 3; 4])
    = Returns new_formula ∧
    startswith new_formula (py "=") = true.
Proof.
  assert (Hstart : startswith (py "=A10") (py "=") = true) by reflexivity.
  assert (Hlimits : Forall (within_limits
            (build_row_mapping_after_deletion (rows_upto 10) [2; 3; 4]))
    (parse_cell_references (tables := ascii_only) (py "=A10"))).
  { change (parse_cell_references (tables := ascii_only) (py "=A10"))
      with [py "A10"].
    constructor; [|constructor].
    exists 10. split; [reflexivity|]. intros v Hv.
    vm_compute in Hv. injection Hv as <-. apply Z.leb_le. reflexivity. }
  split; [exact Hstart|]. split; [exact Hlimits|].
  exact (rewritten_formula_is_formula (tables := ascii_only) _ _
           Hstart Hlimits).
Defined.

(** X16 at the reference to row 10 of column A with an absolute row, in the
    mapping of the rows 1..10 with rows 2, 3 and 4 deleted. *)
Lemma single_reference_rewritten_witness :
  marked_run upper [] (py "A") ∧ marked_run digit [dollar] (py "10") ∧
  int (py "10") = Returns 10 ∧
  build_row_mapping_after_deletion (rows_upto 10) [2; 3; 4] !! 10
    = Some (Some 7) ∧
  Z.of_nat (decimal_digits 7) ≤ max_str_digits ∧
  adjust_formula_references (tables := ascii_only)
    (py "=" ++ ([] ++ py "A") ++ [dollar] ++ py "10")
    (build_row_mapping_after_deletion (rows_upto 10) [2; 3; 4])
  = Returns (py "=" ++ ([] ++ py "A") ++ [dollar] ++ str_of_int 7).
Proof.
  assert (Hcol : marked_run upper [] (py "A"))
    by (split; [by left|split; [done|by repeat constructor]]).
  assert (Hrow : marked_run digit [dollar] (py "10"))
    by (split; [by right|split; [done|by repeat constructor]]).
  assert (Hint : int (py "10") = Returns 10) by reflexivity.
  assert (Hmap : build_row_mapping_after_deletion (rows_upto 10) [2; 3; 4] !! 10
                 = Some (Some 7)) by (vm_compute; reflexivity).
  assert (Hnew : Z.of_nat (decimal_digits 7) ≤ max_str_digits)
    by (apply Z.leb_le; reflexivity).
  split; [exact Hcol|]. split; [exact Hrow|]. split; [exact Hint|].
  split; [exact Hmap|]. split; [exact Hnew|].
  exact (single_reference_rewritten (tables := ascii_only)
           [] (py "A") [dollar] (py "10") 10 7 _ Hcol Hrow Hint Hmap Hnew).
Defined.

(** Without the bound on the new row number X16 fails: [str] does not write
    a number of 4301 digits. *)
Lemma single_reference_new_row_too_long :
  adjust_formula_references (tables := ascii_only) (py "=A1")
    {[ 1 := Some (10 ^ 4300) ]}
  = Raises ValueError.
Proof. vm_compute. reflexivity. Qed.

(** X17 at a formula with a reference to the sheet Data behind a first
    reference, so that the pattern finds the sheet by its name. *)
Lemma adjust_sheet_references_total_witness :
  Forall (sheet_reference_within_limits
            {[ py "Data" :=
                 build_row_mapping_after_deletion (rows_upto 5) [3] ]})
    (findall2_from sheet_reference_pattern 0 (py "=S!A1Data!B4")) ∧
  ∃ new_formula,
    adjust_sheet_references (py "=S!A1Data!B4")
      {[ py "Data" := build_row_mapping_after_deletion (rows_upto 5) [3] ]}
    = Returns new_formula.
Proof.
  assert (Hlimits : Forall (sheet_reference_within_limits
            {[ py "Data" :=
                 build_row_mapping_after_deletion (rows_upto 5) [3] ]})
    (findall2_from sheet_reference_pattern 0 (py "=S!A1Data!B4"))).
  { change (findall2_from sheet_reference_pattern 0 (py "=S!A1Data!B4"))
      with [(py "=S", py "A1"); (py "Data", py "B4")].
    constructor; [|constructor; [|constructor]].
    - intros mapping Hmapping. exfalso.
      apply lookup_singleton_Some in Hmapping as [Hname _].
      discriminate Hname.
    - intros mapping Hmapping.
      apply lookup_singleton_Some in Hmapping as [_ <-].
      exists 4. split; [reflexivity|]. intros v Hv.
      vm_compute in Hv. injection Hv as <-. apply Z.leb_le. reflexivity. }
  split; [exact Hlimits|].
  exact (adjust_sheet_references_total _ _ Hlimits).
Defined.

(** X18 at a reference to row 4 of the sheet Data, of which row 3 has been
    deleted. *)
Lemma sheet_qualified_reference_untouched_witness :
  (bang ∉ py "Data") ∧ reference_parts (py "A") (py "4") ∧
  (∀ name,
     name ∈ dom ({[ py "Data" :=
                     build_row_mapping_after_deletion (rows_upto 5) [3] ]}
                 : gmap (list N) (gmap Z (option Z))) →
     head name ≠ Some 61%N) ∧
  adjust_sheet_references (py "=" ++ py "Data" ++ bang :: py "A" ++ py "4")
    {[ py "Data" := build_row_mapping_after_deletion (rows_upto 5) [3] ]}
  = Returns (py "=" ++ py "Data" ++ bang :: py "A" ++ py "4").
Proof.
  assert (Hbang : bang ∉ py "Data").
  { apply (bool_decide_unpack _). reflexivity. }
  assert (Hparts : reference_parts (py "A") (py "4")).
  { exists [], (py "A"), [], (py "4"). split; [done|]. split; [done|].
    split; (split; [by left|split; [done|by repeat constructor]]). }
  assert (Hnames : ∀ name,
     name ∈ dom ({[ py "Data" :=
                     build_row_mapping_after_deletion (rows_upto 5) [3] ]}
                 : gmap (list N) (gmap Z (option Z))) →
     head name ≠ Some 61%N).
  { intros name Hname. rewrite dom_singleton in Hname.
    apply elem_of_singleton in Hname as ->. discriminate. }
  split; [exact Hbang|]. split; [exact Hparts|]. split; [exact Hnames|].
  exact (sheet_qualified_reference_untouched _ _ _ _ Hbang Hparts Hnames).
Defined.
